(** * Classlist parser: a shallow embedding of [parser.py] and its properties

    The development follows [src/classlist_parser/parser.py]: the page walk of
    [main] (header pass, then student-row pass), the term detector
    [_detect_term_from_pdf] with [_term_from_code], and [_safe_filename].

    Text is modelled as a list of characters; a character is a code point in
    U+0000..U+00FF, and the character classes below are the ones Python's
    [str] methods and the [re] module use on that range. *)

From Stdlib Require Import Ascii String.
From Stdlib Require Import List Bool Arith Lia.
Import ListNotations.

(** ** Characters and text *)

Definition str := list ascii.

Declare Scope str_scope.
Delimit Scope str_scope with str.
Bind Scope str_scope with str.
#[warning="-via-type-remapping,-via-type-mismatch"]
String Notation str string_of_list_byte list_byte_of_string
  (via string mapping [[nil] => EmptyString, [cons] => String]) : str_scope.
Open Scope str_scope.
Open Scope list_scope.

Definition code (c : ascii) : nat := nat_of_ascii c.

Definition in_range (lo hi : nat) (c : ascii) : bool :=
  (lo <=? code c) && (code c <=? hi).

(** [str.isspace] / [\s] : TAB..CR, FS..US, space, NEL, NBSP. *)
Definition is_space (c : ascii) : bool :=
  in_range 9 13 c || in_range 28 32 c || (code c =? 133) || (code c =? 160).

(** [\d] : the decimal digits. *)
Definition is_digit (c : ascii) : bool := in_range 48 57 c.

Definition is_upper_AZ (c : ascii) : bool := in_range 65 90 c.
Definition is_lower_az (c : ascii) : bool := in_range 97 122 c.

(** [\w] : alphanumeric characters ([str.isalnum]) and the underscore. *)
Definition is_word (c : ascii) : bool :=
  is_digit c || is_upper_AZ c || is_lower_az c || (code c =? 95)
  || (code c =? 170) || (code c =? 178) || (code c =? 179) || (code c =? 181)
  || (code c =? 185) || (code c =? 186) || in_range 188 190 c
  || in_range 192 214 c || in_range 216 246 c || in_range 248 255 c.

(** ** [str] methods used by the parser *)

Fixpoint drop_while (p : ascii -> bool) (s : str) : str :=
  match s with
  | [] => []
  | c :: s' => if p c then drop_while p s' else s
  end.

Fixpoint take_while (p : ascii -> bool) (s : str) : str :=
  match s with
  | [] => []
  | c :: s' => if p c then c :: take_while p s' else []
  end.

Definition not_space (c : ascii) : bool := negb (is_space c).

Definition lstrip (s : str) : str := drop_while is_space s.
Definition rstrip (s : str) : str := rev (drop_while is_space (rev s)).

(** [s.strip()] *)
Definition strip (s : str) : str := rstrip (lstrip s).

Fixpoint str_eqb (a b : str) : bool :=
  match a, b with
  | [], [] => true
  | x :: a', y :: b' => Ascii.eqb x y && str_eqb a' b'
  | _, _ => false
  end.

(** [s.startswith(p)] *)
Fixpoint starts_with (p s : str) : bool :=
  match p, s with
  | [], _ => true
  | x :: p', y :: s' => Ascii.eqb x y && starts_with p' s'
  | _ :: _, [] => false
  end.

(** [d in s] on strings: [d] occurs in [s] as a substring. *)
Fixpoint contains (d s : str) : bool :=
  starts_with d s ||
  match s with
  | [] => false
  | _ :: s' => contains d s'
  end.

Definition cons_head (c : ascii) (ps : list str) : list str :=
  match ps with
  | p :: ps' => (c :: p) :: ps'
  | [] => [[c]]
  end.

(** [s.split(sep)] for a non-empty separator [sep]; [skip] counts the
    characters of a separator occurrence that are still to be passed over. *)
Fixpoint split_from (sep s : str) (skip : nat) : list str :=
  match s with
  | [] => [[]]
  | c :: s' =>
      match skip with
      | S n => split_from sep s' n
      | O => if starts_with sep s
             then [] :: split_from sep s' (length sep - 1)
             else cons_head c (split_from sep s' 0)
      end
  end.

Definition split (sep s : str) : list str := split_from sep s 0.

(** [s.split()] : the whitespace-delimited tokens of [s]. *)
Fixpoint split_ws (s : str) : list str :=
  match s with
  | [] => []
  | c :: s' =>
      if is_space c then split_ws s'
      else match s' with
           | [] => [[c]]
           | d :: _ => if is_space d then [c] :: split_ws s'
                       else cons_head c (split_ws s')
           end
  end.

(** [s.split(None, 1)] : the first token and, when something other than
    whitespace follows it, the rest of the text from the next token on. *)
Definition split_ws1 (s : str) : list str :=
  match lstrip s with
  | [] => []
  | s1 =>
      let tok := take_while not_space s1 in
      match lstrip (drop_while not_space s1) with
      | [] => [tok]
      | rest => [tok; rest]
      end
  end.

Definition to_lower (c : ascii) : ascii :=
  if is_upper_AZ c then ascii_of_nat (code c + 32) else c.
Definition to_upper (c : ascii) : ascii :=
  if is_lower_az c then ascii_of_nat (code c - 32) else c.
Definition is_cased (c : ascii) : bool := is_upper_AZ c || is_lower_az c.

(** [s.title()].  The source applies it to group 1 of [_TERM_TEXT_RE] only,
    which consists of the letters A-Z and a-z; the case mapping is the one of
    those letters. *)
Fixpoint title_from (prev_cased : bool) (s : str) : str :=
  match s with
  | [] => []
  | c :: s' =>
      (if prev_cased then to_lower c else to_upper c) :: title_from (is_cased c) s'
  end.
Definition title (s : str) : str := title_from false s.

(** ** Regular expressions

    The fragment of Python's [re] syntax that the patterns of the source use,
    matched as [re] does: leftmost, alternatives in order, greedy repetition
    with backtracking.  Repetition is applied in the source to character
    classes only ([\s*], [\s+], [\w+], [\d+], [.*]). *)

Inductive regex : Type :=
| Eps : regex
| Cls : (ascii -> bool) -> regex          (* one character of a class *)
| Cat : regex -> regex -> regex           (* r1 r2 *)
| Alt : regex -> regex -> regex           (* r1|r2 *)
| Star : (ascii -> bool) -> regex         (* c*, greedy *)
| Opt : regex -> regex                    (* r?, greedy *)
| Grp : nat -> regex -> regex             (* capture group number n *)
| Bnd : regex.                            (* \b *)

Definition Plus (p : ascii -> bool) : regex := Cat (Cls p) (Star p).
Definition Lit (x : ascii) : regex := Cls (Ascii.eqb x).
(** a literal character under [re.I] *)
Definition LitI (x : ascii) : regex :=
  Cls (fun c => Ascii.eqb (to_lower c) (to_lower x)).
Definition seq (rs : list regex) : regex := fold_right Cat Eps rs.
Fixpoint rep (n : nat) (r : regex) : regex :=
  match n with
  | O => Eps
  | S n' => Cat r (rep n' r)
  end.
Definition word_i (w : str) : regex := seq (map LitI w).

(** [.] without [re.S]: anything but a newline. *)
Definition is_dot (c : ascii) : bool := negb (code c =? 10).

(** The matcher's position: the character before the cursor (for [\b]),
    the text from the cursor on, and the groups captured so far. *)
Record mstate : Type := MState {
  prev : option ascii;
  rest : str;
  caps : list (nat * str)
}.

Definition word_opt (o : option ascii) : bool :=
  match o with
  | Some c => is_word c
  | None => false
  end.

Definition at_boundary (pv : option ascii) (s : str) : bool :=
  xorb (word_opt pv) (word_opt (hd_error s)).

Definition consumed (s s' : str) : str := firstn (length s - length s') s.

Section Matcher.
Variable A : Type.

Fixpoint star_run (p : ascii -> bool) (k : option ascii -> str -> option A)
         (pv : option ascii) (s : str) : option A :=
  match s with
  | c :: s' =>
      if p c then
        match star_run p k (Some c) s' with
        | Some a => Some a
        | None => k pv s
        end
      else k pv s
  | [] => k pv s
  end.

Fixpoint run (r : regex) (st : mstate) (k : mstate -> option A) : option A :=
  match r with
  | Eps => k st
  | Cls p =>
      match rest st with
      | c :: s' => if p c then k (MState (Some c) s' (caps st)) else None
      | [] => None
      end
  | Cat r1 r2 => run r1 st (fun st1 => run r2 st1 k)
  | Alt r1 r2 =>
      match run r1 st k with
      | Some a => Some a
      | None => run r2 st k
      end
  | Star p =>
      star_run p (fun pv s => k (MState pv s (caps st))) (prev st) (rest st)
  | Opt r1 =>
      match run r1 st k with
      | Some a => Some a
      | None => k st
      end
  | Grp n r1 =>
      run r1 st (fun st1 =>
        k (MState (prev st1) (rest st1)
                  ((n, consumed (rest st) (rest st1)) :: caps st1)))
  | Bnd => if at_boundary (prev st) (rest st) then k st else None
  end.
End Matcher.
Arguments star_run {A} p k pv s.
Arguments run {A} r st k.

(** A match object: the matched text (group 0) and the numbered groups. *)
Record Match : Type := MkMatch {
  whole : str;
  m_caps : list (nat * str)
}.

Fixpoint lookup (n : nat) (l : list (nat * str)) : option str :=
  match l with
  | [] => None
  | (k, v) :: l' => if k =? n then Some v else lookup n l'
  end.

(** [m.group(n)]; every group of the source's patterns takes part in every
    match, so the value is always a string. *)
Definition group (n : nat) (m : Match) : str :=
  match n with
  | O => whole m
  | _ => match lookup n (m_caps m) with
         | Some v => v
         | None => []
         end
  end.

(** A match attempt starting at the cursor. *)
Definition match_at (r : regex) (pv : option ascii) (s : str) : option Match :=
  run r (MState pv s [])
      (fun st => Some (MkMatch (consumed s (rest st)) (caps st))).

(** [re.match(r, s)] *)
Definition re_match (r : regex) (s : str) : option Match := match_at r None s.

Fixpoint search_from (r : regex) (pv : option ascii) (s : str) : option Match :=
  match match_at r pv s with
  | Some m => Some m
  | None =>
      match s with
      | [] => None
      | c :: s' => search_from r (Some c) s'
      end
  end.

(** [re.search(r, s)] *)
Definition re_search (r : regex) (s : str) : option Match := search_from r None s.

(** [r.finditer(s)] : the successive non-overlapping matches, left to right. *)
Fixpoint finditer_from (r : regex) (pv : option ascii) (s : str) (skip : nat)
  : list Match :=
  match skip with
  | S n =>
      match s with
      | [] => []
      | c :: s' => finditer_from r (Some c) s' n
      end
  | O =>
      match match_at r pv s with
      | Some m =>
          m :: match s with
               | [] => []
               | c :: s' => finditer_from r (Some c) s' (length (whole m) - 1)
               end
      | None =>
          match s with
          | [] => []
          | c :: s' => finditer_from r (Some c) s' 0
          end
      end
  end.

Definition finditer (r : regex) (s : str) : list Match := finditer_from r None s 0.

(** [re.sub(r, repl, s)] for a replacement text without group references. *)
Fixpoint sub_from (r : regex) (repl : str) (pv : option ascii) (s : str)
         (skip : nat) : str :=
  match skip with
  | S n =>
      match s with
      | [] => []
      | c :: s' => sub_from r repl (Some c) s' n
      end
  | O =>
      match match_at r pv s with
      | Some m =>
          repl ++
          match s with
          | [] => []
          | c :: s' =>
              match length (whole m) with
              | O => c :: sub_from r repl (Some c) s' 0
              | S n => sub_from r repl (Some c) s' n
              end
          end
      | None =>
          match s with
          | [] => []
          | c :: s' => c :: sub_from r repl (Some c) s' 0
          end
      end
  end.

Definition re_sub (r : regex) (repl s : str) : str := sub_from r repl None s 0.

(** ** The patterns of the source *)

(** The header pattern of [main]:
    \s* (\d{5}) \s+ (\w+) \s+ (\d+[A-Z]?) \s+ (\d) \s+ and, as group 5, the
    rest of the line. *)
Definition COURSE_RE : regex :=
  seq [ Star is_space; Grp 1 (rep 5 (Cls is_digit));
        Plus is_space; Grp 2 (Plus is_word);
        Plus is_space; Grp 3 (Cat (Plus is_digit) (Opt (Cls is_upper_AZ)));
        Plus is_space; Grp 4 (Cls is_digit);
        Plus is_space; Grp 5 (Star is_dot) ].

(** The G-number pattern of [main]: (G\d{8}) *)
Definition GNUM_RE : regex := Grp 1 (Cat (Lit "G") (rep 8 (Cls is_digit))).

(** [re.compile(r'\b(Spring|Summer|Fall|Winter)\s+(20\d{2})\b', re.I)] *)
Definition _TERM_TEXT_RE : regex :=
  seq [ Bnd;
        Grp 1 (Alt (word_i "Spring") (Alt (word_i "Summer")
                (Alt (word_i "Fall") (word_i "Winter"))));
        Plus is_space;
        Grp 2 (seq [Lit "2"; Lit "0"; Cls is_digit; Cls is_digit]);
        Bnd ].

(** [re.compile(r'\b(20\d{2}0[1-4])\b')] *)
Definition _TERM_CODE_RE : regex :=
  seq [ Bnd;
        Grp 1 (seq [Lit "2"; Lit "0"; Cls is_digit; Cls is_digit; Lit "0";
                    Cls (in_range 49 52)]);
        Bnd ].

(** [r'[^A-Za-z0-9 _\-]'] *)
Definition is_safe_char (c : ascii) : bool :=
  is_upper_AZ c || is_lower_az c || is_digit c
  || (code c =? 32) || (code c =? 95) || (code c =? 45).
Definition UNSAFE_RE : regex := Cls (fun c => negb (is_safe_char c)).

(** [r'\s+'] *)
Definition SPACES_RE : regex := Plus is_space.

(** ** Exceptions *)

Inductive exn : Type := IndexError | ValueError.

(** The outcome of a computation: a value, a raised exception, or, for the
    bounded loop below, the bound reached before the loop ended. *)
Inductive result (A : Type) : Type :=
| Ok (a : A)
| Raised (e : exn)
| OutOfFuel.
Arguments Ok {A} _.
Arguments Raised {A} _.
Arguments OutOfFuel {A}.

Definition bind {A B : Type} (m : result A) (f : A -> result B) : result B :=
  match m with
  | Ok a => f a
  | Raised e => Raised e
  | OutOfFuel => OutOfFuel
  end.

Notation "x <- m ;; f" := (bind m (fun x => f))
  (at level 61, m at next level, right associativity).

(** [l[i]] for [0 <= i] *)
Definition index {A : Type} (l : list A) (i : nat) : result A :=
  match nth_error l i with
  | Some x => Ok x
  | None => Raised IndexError
  end.

(** ** Settings *)

(** The settings that the parser reads: [allowed_courses] ([None] accepts
    every course number) and [email_domain]. *)
Record Settings : Type := MkSettings {
  allowed_courses : option (list str);
  email_domain : str
}.

(** [x in allowed] *)
Definition mem (x : str) (l : list str) : bool := existsb (str_eqb x) l.

Definition DEFAULT_SETTINGS : Settings :=
  MkSettings
    (Some ["170"; "221"; "223"; "240"; "242"; "244"; "246"; "248"; "252";
           "254"; "260"; "265"; "266"; "267"; "270"; "280A"])
    "@pcc.edu".

(** ** The page walk of [main] *)

(** The non-empty value of [current_class]. *)
Record ClassContext : Type := MkContext {
  ctx_CRN : str;
  ctx_Subject : str;
  ctx_Course_Number : str;
  ctx_Section : str;
  ctx_Course_Name : str
}.

(** One element of [records]. *)
Record StudentRecord : Type := MkRecord {
  First_Name : str;
  Last_Name : str;
  G_Number : str;
  PCC_email_address : str;
  Non_PCC_email : str;
  rec_Class : str;
  rec_CRN : str
}.

(** The body of the header loop (lines 250-266): [current_class] after
    [line], [None] standing for the empty dict. *)
Definition onHeader (settings : Settings) (current_class : option ClassContext)
           (line : str) : option ClassContext :=
  match re_match COURSE_RE line with
  | Some course_match =>
      let course_number := group 3 course_match in
      match allowed_courses settings with
      | Some allowed =>
          if negb (mem course_number allowed) then None
          else Some (MkContext (group 1 course_match) (group 2 course_match)
                               course_number (group 4 course_match)
                               (strip (group 5 course_match)))
      | None =>
          Some (MkContext (group 1 course_match) (group 2 course_match)
                          course_number (group 4 course_match)
                          (strip (group 5 course_match)))
      end
  | None => current_class
  end.

(** The header loop over the lines of a page. *)
Definition header_pass (settings : Settings)
           (current_class : option ClassContext) (lines : list str)
  : option ClassContext :=
  fold_left (onHeader settings) lines current_class.

(** Lines 276-279, inside the [try]. *)
Definition split_name (line gnum : str) : result (str * str) :=
  name_part <- index (split gnum line) 0 ;;
  tail <- index (split_ws1 name_part) 1 ;;
  let last_first := split "," tail in
  l <- index last_first 0 ;;
  f <- index last_first 1 ;;
  Ok (strip l, strip f).

(** Lines 274-281: any exception leaves both names empty. *)
Definition names (line gnum : str) : str * str :=
  match split_name line gnum with
  | Ok p => p
  | _ => ([], [])
  end.

(** Lines 286-290. *)
Definition email_of (settings : Settings) (lines : list str) (idx : nat)
  : result str :=
  if idx + 1 <? length lines then
    let email_line := strip (nth (idx + 1) lines []) in
    if contains (email_domain settings) email_line
    then index (split_ws email_line) 0
    else Ok []
  else Ok [].

Definition class_label (c : ClassContext) : str :=
  ctx_Subject c ++ " " ++ ctx_Course_Number c.

(** The body of the student-row loop (lines 271-304) at cursor [idx], for
    [idx < len(lines)]: the record appended, if any, and the next cursor. *)
Definition tryExtract (settings : Settings) (lines : list str) (idx : nat)
           (current_class : option ClassContext)
  : result (option StudentRecord * nat) :=
  let line := nth idx lines [] in
  match re_search GNUM_RE line, current_class with
  | Some gnum_match, Some cur =>
      let '(last_name, first_name) := names line (group 1 gnum_match) in
      let g_number := group 1 gnum_match in
      email <- email_of settings lines idx ;;
      Ok (Some (MkRecord first_name last_name g_number email []
                         (class_label cur) (ctx_CRN cur)),
          idx + 2)
  | _, _ => Ok (None, idx + 1)
  end.

(** The [while idx < len(lines)] loop, bounded by [fuel] iterations. *)
Fixpoint student_rows (fuel : nat) (settings : Settings)
         (current_class : option ClassContext) (lines : list str) (idx : nat)
         (records : list StudentRecord) : result (list StudentRecord) :=
  match fuel with
  | O => OutOfFuel
  | S fuel' =>
      if idx <? length lines then
        step <- tryExtract settings lines idx current_class ;;
        match step with
        | (Some r, idx') =>
            student_rows fuel' settings current_class lines idx' (records ++ [r])
        | (None, idx') =>
            student_rows fuel' settings current_class lines idx' records
        end
      else Ok records
  end.

(** The state that [main] carries from page to page. *)
Record WalkState : Type := MkWalk {
  current_class : option ClassContext;
  records : list StudentRecord
}.

(** [page.extract_text() or ''] *)
Definition page_text (extracted : option str) : str :=
  match extracted with
  | Some t => t
  | None => []
  end.

Definition NL : str := [ascii_of_nat 10].

(** One iteration of [for page in pdf.pages] (lines 245-304). *)
Definition walk_page (settings : Settings) (st : WalkState)
           (page : option str) : result WalkState :=
  let lines := split NL (page_text page) in
  let cur := header_pass settings (current_class st) lines in
  recs <- student_rows (S (length lines)) settings cur lines 0 (records st) ;;
  Ok (MkWalk cur recs).

Fixpoint walk_pages (settings : Settings) (st : WalkState)
         (pages : list (option str)) : result WalkState :=
  match pages with
  | [] => Ok st
  | page :: pages' =>
      st' <- walk_page settings st page ;;
      walk_pages settings st' pages'
  end.

(** The records of a document: lines 237-304. *)
Definition walk (settings : Settings) (pages : list (option str))
  : result (list StudentRecord) :=
  st <- walk_pages settings (MkWalk None []) pages ;;
  Ok (records st).

(** ** Term detection and file names *)

Definition season_map (d : nat) : str :=
  match d with
  | 1 => "Winter"
  | 2 => "Spring"
  | 3 => "Summer"
  | 4 => "Fall"
  | _ => ""
  end.

(** [int(c)] for a one-character string. *)
Definition int_of_char (c : ascii) : result nat :=
  if is_digit c then Ok (code c - 48) else Raised ValueError.

(** [code[-1]] *)
Definition last_char (s : str) : result ascii :=
  match rev s with
  | c :: _ => Ok c
  | [] => Raised IndexError
  end.

Definition _term_from_code (code : str) : result str :=
  c <- last_char code ;;
  d <- int_of_char c ;;
  Ok (strip (season_map d ++ " " ++ firstn 4 code)).

(** The [for m in _TERM_CODE_RE.finditer(header)] loop. *)
Fixpoint first_guess (ms : list Match) : result str :=
  match ms with
  | [] => Ok []
  | m :: ms' =>
      guess <- _term_from_code (group 0 m) ;;
      match guess with
      | [] => first_guess ms'
      | _ => Ok guess
      end
  end.


Definition detect (header : str) : result str :=
  match re_search _TERM_TEXT_RE header with
  | Some m => Ok (title (group 1 m) ++ " " ++ group 2 m)
  | None => first_guess (finditer _TERM_CODE_RE header)
  end.


(** [s or ''] *)
Definition or_empty (s : option str) : str :=
  match s with
  | Some t => t
  | None => []
  end.

Definition _safe_filename (s : option str) : str :=
  let s1 := strip (or_empty s) in
  let s2 := re_sub UNSAFE_RE "" s1 in
  strip (re_sub SPACES_RE " " s2).

(** ** Notions used in the statements *)

(** A text that neither is empty nor starts or ends with whitespace. *)
Definition solid (d : str) : Prop :=
  exists x, hd_error d = Some x /\ is_space x = false /\
            is_space (last d x) = false.

(** The character before the cursor once [a] has been passed. *)
Fixpoint prev_of (pv : option ascii) (a : str) : option ascii :=
  match a with
  | [] => pv
  | c :: a' => prev_of (Some c) a'
  end.

(** What [(G\d{8})] matches at the cursor. *)
Definition is_gnum (g : str) : Prop :=
  exists d, g = "G"%char :: d /\ length d = 8 /\ forallb is_digit d = true.

(** [r] carries the class label and the CRN of the context [cur]. *)
Definition tagged_by (cur : option ClassContext) (r : StudentRecord) : Prop :=
  exists c, cur = Some c /\ rec_Class r = class_label c /\ rec_CRN r = ctx_CRN c.

(** The lines of a page: [text.split('\n')]. *)
Definition page_lines (page : option str) : list str := split NL (page_text page).

(** The context in force during the row loop of the last of [pages], when
    the walk enters the first of them with [cur]. *)
Definition ctx_from (settings : Settings) (cur : option ClassContext)
           (pages : list (option str)) : option ClassContext :=
  fold_left (fun c page => header_pass settings c (page_lines page)) pages cur.

(** The text before the first occurrence of the G-number. *)
Definition name_region (line gnum : str) : str := nth 0 (split gnum line) [].

(** The reading of the specification for the name fields: the text after
    the leading token is cut once, at its first comma. *)
Fixpoint cut_first (x : ascii) (s : str) : option (str * str) :=
  match s with
  | [] => None
  | c :: s' =>
      if Ascii.eqb x c then Some ([], s')
      else match cut_first x s' with
           | Some (a, b) => Some (c :: a, b)
           | None => None
           end
  end.

Definition names_at_first_comma (line gnum : str) : str * str :=
  match (name_part <- index (split gnum line) 0 ;;
         index (split_ws1 name_part) 1) with
  | Ok tail =>
      match cut_first ","%char tail with
      | Some (l, f) => (strip l, strip f)
      | None => ([], [])
      end
  | _ => ([], [])
  end.

(** [x] passes the course filter. *)
Definition allows (allowed : option (list str)) (x : str) : Prop :=
  match allowed with
  | None => True
  | Some a => mem x a = true
  end.

(** A term code: 20, two digits, 0, and a digit from 1 to 4. *)
Definition is_term_code (c : str) : Prop :=
  exists y1 y2 q,
    c = ["2"; "0"; y1; y2; "0"; q]%char /\
    is_digit y1 = true /\ is_digit y2 = true /\ in_range 49 52 q = true.

(** [header] is [pre ++ c ++ post] with the term code [c] between word
    boundaries. *)
Definition code_at (header pre c post : str) : Prop :=
  header = pre ++ c ++ post /\ is_term_code c /\
  word_opt (prev_of None pre) = false /\ word_opt (hd_error post) = false.

(** A season name in any case. *)
Definition is_season_ci (w : str) : Prop :=
  In (map to_lower w) ["spring"; "summer"; "fall"; "winter"].

(** A year of this century. *)
Definition is_year20 (y : str) : Prop :=
  exists d1 d2,
    y = ["2"; "0"; d1; d2]%char /\ is_digit d1 = true /\ is_digit d2 = true.

(** [header] is [pre ++ w ++ ws ++ y ++ post]: a season name, whitespace and
    a year, between word boundaries. *)
Definition phrase_at (header pre w ws y post : str) : Prop :=
  header = pre ++ w ++ ws ++ y ++ post /\
  is_season_ci w /\ ws <> [] /\ forallb is_space ws = true /\ is_year20 y /\
  word_opt (prev_of None pre) = false /\ word_opt (hd_error post) = false.

(** Whitespace runs replaced by one space; [in_run] tells that the previous
    character was whitespace.  [re.sub(r'\s+', ' ', s)] computes
    [collapse_from false s]. *)
Fixpoint collapse_from (in_run : bool) (s : str) : str :=
  match s with
  | [] => []
  | c :: s' =>
      if is_space c
      then if in_run then collapse_from true s'
           else " "%char :: collapse_from true s'
      else c :: collapse_from false s'
  end.

(** No whitespace but single spaces; [after_space] tells that the previous
    character was whitespace. *)
Fixpoint tidy_from (after_space : bool) (s : str) : bool :=
  match s with
  | [] => true
  | c :: s' =>
      if is_space c
      then negb after_space && Ascii.eqb c " "%char && tidy_from true s'
      else tidy_from false s'
  end.

(** ** Inputs of the examples *)

(** A page whose student line comes before its header line, and the state
    of the walk after it. *)
Definition C1_page : option str :=
  Some ("1 Doe, Jane G12345678" ++ NL ++ "jdoe@pcc.edu" ++ NL ++
        "12345 GEO 170 1 Intro to Geography").

Definition C1_state : WalkState :=
  MkWalk (Some (MkContext "12345" "GEO" "170" "1" "Intro to Geography"))
         [MkRecord "Jane" "Doe" "G12345678" "jdoe@pcc.edu" "" "GEO 170" "12345"].

(** An allow-list that holds 170 only, a header of GEO 221, a page with a
    student line after it, and the same page with a header of GEO 170 added
    at its end. *)
Definition C5_settings : Settings := MkSettings (Some ["170"]) "@pcc.edu".
Definition C5_header : str := "54321 GEO 221 2 Advanced Geo".
Definition C5_page : option str :=
  Some (C5_header ++ NL ++ "2 Smith, John G87654321").

Definition C5_mixed_page : option str :=
  Some (C5_header ++ NL ++ "2 Smith, John G87654321" ++ NL ++ "" ++ NL ++
        "12345 GEO 170 1 Intro to Geography").

(** A student line followed by an e-mail line with spaces around the
    address, and a context. *)
Definition C9_lines : list str :=
  ["1 Doe, Jane G12345678"; "  jdoe@pcc.edu  extra text"].
Definition C9_context : ClassContext :=
  MkContext "12345" "GEO" "170" "1" "Intro to Geography".

(** An e-mail domain that ends with a space, and a page whose e-mail line
    ends with a space too. *)
Definition C9_odd_settings : Settings := MkSettings None "@pcc.edu ".
Definition C9_odd_lines : list str := ["1 Doe, Jane G12345678"; "jdoe@pcc.edu "].

(** A page made of one student line. *)
Definition C4_lines : list str := ["1 Doe, Jane G12345678"].

(** The two pages of the scenario, the third line of page 2 left open, and
    the two records expected. *)
Definition C2_page1 : option str :=
  Some ("12345 GEO 170 1 Intro to Geography" ++ NL ++
        "1 Doe, Jane G12345678" ++ NL ++ "jdoe@pcc.edu").

Definition C2_page2 (l : str) : option str :=
  Some ("54321 GEO 221 2 Advanced Geo" ++ NL ++
        "2 Smith, John G87654321" ++ NL ++ l).

Definition C2_record1 : StudentRecord :=
  MkRecord "Jane" "Doe" "G12345678" "jdoe@pcc.edu" "" "GEO 170" "12345".
Definition C2_record2 : StudentRecord :=
  MkRecord "John" "Smith" "G87654321" "" "" "GEO 221" "54321".

(** ** Tactics *)

(** Case analysis on the tests of a conditional in [H]. *)
Ltac split_if H :=
  repeat match type of H with
         | context [if ?b then _ else _] =>
             let E := fresh "E" in destruct b eqn:E; try discriminate H
         end.

(** A case analysis over the 256 characters. *)
Ltac all_chars c :=
  destruct c as [[] [] [] [] [] [] [] []]; vm_compute;
  try reflexivity; try discriminate.

(** ** What a pattern matches *)

(** [matches r pv s1 s2 g]: with [pv] before the cursor and [s2] after the
    matched text, the pattern [r] matches the text [s1] and captures the
    groups [g], the last one closed first in the list. *)
Inductive matches : regex -> option ascii -> str -> str -> list (nat * str) -> Prop :=
| M_Eps : forall pv s2, matches Eps pv [] s2 []
| M_Cls : forall p pv c s2, p c = true -> matches (Cls p) pv [c] s2 []
| M_Cat : forall r1 r2 pv s1 s1' s2 g1 g2,
    matches r1 pv s1 (s1' ++ s2) g1 ->
    matches r2 (prev_of pv s1) s1' s2 g2 ->
    matches (Cat r1 r2) pv (s1 ++ s1') s2 (g2 ++ g1)
| M_AltL : forall r1 r2 pv s1 s2 g,
    matches r1 pv s1 s2 g -> matches (Alt r1 r2) pv s1 s2 g
| M_AltR : forall r1 r2 pv s1 s2 g,
    matches r2 pv s1 s2 g -> matches (Alt r1 r2) pv s1 s2 g
| M_Star : forall p pv s1 s2,
    forallb p s1 = true -> matches (Star p) pv s1 s2 []
| M_OptSome : forall r pv s1 s2 g,
    matches r pv s1 s2 g -> matches (Opt r) pv s1 s2 g
| M_OptNone : forall r pv s2, matches (Opt r) pv [] s2 []
| M_Grp : forall n r pv s1 s2 g,
    matches r pv s1 s2 g -> matches (Grp n r) pv s1 s2 ((n, s1) :: g)
| M_Bnd : forall pv s2, at_boundary pv s2 = true -> matches Bnd pv [] s2 [].

(** ** The fields of a header line *)

(** A CRN: five digits. *)
Definition is_crn (s : str) : Prop :=
  length s = 5 /\ forallb is_digit s = true.

(** A course number: digits, then at most one letter from A to Z. *)
Definition is_course_number (s : str) : Prop :=
  exists ds suffix,
    s = ds ++ suffix /\ ds <> [] /\ forallb is_digit ds = true /\
    (suffix = [] \/ exists c, suffix = [c] /\ is_upper_AZ c = true).

(** Non-empty whitespace. *)
Definition is_gap (s : str) : Prop := s <> [] /\ forallb is_space s = true.

(** A header line cut into its parts: leading whitespace, CRN, subject,
    course number, section and title, with whitespace between them, and what
    follows the title. *)
Definition header_parts (line ws0 crn ws1 subj ws2 num ws3 : str) (sec : ascii)
           (ws4 title tail : str) : Prop :=
  line = ws0 ++ crn ++ ws1 ++ subj ++ ws2 ++ num ++ ws3 ++ [sec] ++ ws4 ++
         title ++ tail /\
  forallb is_space ws0 = true /\ is_crn crn /\ is_gap ws1 /\
  (subj <> [] /\ forallb is_word subj = true) /\ is_gap ws2 /\
  is_course_number num /\ is_gap ws3 /\ is_digit sec = true /\ is_gap ws4 /\
  forallb is_dot title = true.

(** The cut that the greedy pattern makes: no whitespace is left after the
    last gap, and the title runs up to the end of the line or to a newline. *)
Definition greedy_title (title tail : str) : Prop :=
  (forall c, hd_error (title ++ tail) = Some c -> is_space c = false) /\
  (forall c, hd_error tail = Some c -> is_dot c = false).

(** A context as a header line sets it. *)
Definition sound_context (settings : Settings) (c : ClassContext) : Prop :=
  is_crn (ctx_CRN c) /\
  (ctx_Subject c <> [] /\ forallb is_word (ctx_Subject c) = true) /\
  is_course_number (ctx_Course_Number c) /\
  (exists d, ctx_Section c = [d] /\ is_digit d = true) /\
  strip (ctx_Course_Name c) = ctx_Course_Name c /\
  allows (allowed_courses settings) (ctx_Course_Number c).

(** A header line with a course number of five parts, for the examples. *)
Definition field_header : str := "  22222 GEO 280A 3   Field Methods ".

(** The number of lines of a document, page after page. *)
Definition line_count (pages : list (option str)) : nat :=
  list_sum (map (fun page => length (page_lines page)) pages).

(** A page with two student lines in a row under its header. *)
Definition crowded_page : option str :=
  Some ("12345 GEO 170 1 Intro to Geography" ++ NL ++
        "1 Doe, Jane G12345678" ++ NL ++ "2 Smith, John G87654321").

Definition crowded_record : StudentRecord :=
  MkRecord "Jane" "Doe" "G12345678" "" "" "GEO 170" "12345".

(** ** The output name and the groups of [main] *)



(** The key of line 320. *)
Definition group_key (rec : StudentRecord) : str :=
  rec_Class rec ++ "_" ++ rec_CRN rec.

(** [grouped[key].append(rec)] on the [defaultdict(list)], whose keys stay
    in the order in which they came in. *)
Fixpoint dict_append (key : str) (rec : StudentRecord)
         (d : list (str * list StudentRecord)) : list (str * list StudentRecord) :=
  match d with
  | [] => [(key, [rec])]
  | (k, recs) :: d' =>
      if str_eqb key k then (k, recs ++ [rec]) :: d'
      else (k, recs) :: dict_append key rec d'
  end.

(** Lines 318-320. *)
Definition grouped (records : list StudentRecord)
  : list (str * list StudentRecord) :=
  fold_left (fun d rec => dict_append (group_key rec) rec d) records [].

(** The keys of a list of records, each at its first occurrence. *)
Fixpoint first_keys (seen : list str) (records : list StudentRecord) : list str :=
  match records with
  | [] => []
  | rec :: records' =>
      if mem (group_key rec) seen then first_keys seen records'
      else group_key rec :: first_keys (group_key rec :: seen) records'
  end.


(** A name that needs no cleaning: only letters, digits, spaces, underscores
    and hyphens, no whitespace at either end and no two whitespace characters
    in a row. *)
Definition clean_name (s : str) : Prop :=
  (forall c, In c s -> is_safe_char c = true) /\
  (forall c t, s = c :: t -> is_space c = false) /\
  (forall t c, s = t ++ [c] -> is_space c = false) /\
  (forall a c d t, s = a ++ c :: d :: t -> is_space c = true -> is_space d = false).

(** The records that go under a key. *)
Definition with_key (key : str) (records : list StudentRecord)
  : list StudentRecord :=
  filter (fun rec => str_eqb (group_key rec) key) records.
(** * Properties *)

(** ** Stripping *)

Lemma drop_while_app_keep (p : ascii -> bool) (a b : str) :
  drop_while p a <> [] -> drop_while p (a ++ b) = drop_while p a ++ b.
Proof.
  induction a as [|c a IH]; simpl; intros H.
  - congruence.
  - destruct (p c); auto.
Qed.

Lemma drop_while_hd (p : ascii -> bool) (s : str) (c : ascii) (t : str) :
  drop_while p s = c :: t -> p c = false.
Proof.
  induction s as [|x s IH]; simpl; intros H.
  - discriminate.
  - destruct (p x) eqn:E; auto. inversion H; subst; assumption.
Qed.

Lemma rstrip_cons_keep (c : ascii) (s : str) :
  is_space c = false -> rstrip (c :: s) = c :: rstrip s.
Proof.
  intros Hc. unfold rstrip. simpl rev.
  destruct (drop_while is_space (rev s)) as [|x t] eqn:E.
  - assert (H : forallb is_space (rev s) = true).
    { clear -E. induction (rev s) as [|y l IH]; simpl in *; auto.
      destruct (is_space y); simpl; auto. discriminate. }
    assert (D : drop_while is_space (rev s ++ [c]) = [c]).
    { clear -H Hc. induction (rev s) as [|y l IH]; simpl in *.
      - rewrite Hc. reflexivity.
      - apply andb_true_iff in H as [-> H]; auto. }
    rewrite D. reflexivity.
  - rewrite drop_while_app_keep by (rewrite E; discriminate).
    rewrite E, rev_app_distr. reflexivity.
Qed.

(** A stripped text does not start with whitespace. *)
Lemma strip_hd_not_space (s : str) (c : ascii) (t : str) :
  strip s = c :: t -> is_space c = false.
Proof.
  unfold strip, lstrip. intros H.
  destruct (drop_while is_space s) as [|x u] eqn:E.
  - discriminate.
  - pose proof (drop_while_hd _ _ _ _ E) as Hx.
    rewrite rstrip_cons_keep in H by assumption.
    inversion H; subst; assumption.
Qed.

Lemma split_ws_hd_not_space (c : ascii) (t : str) :
  is_space c = false -> split_ws (c :: t) <> [].
Proof.
  intros Hc. simpl. rewrite Hc. destruct t as [|d t']; [discriminate|].
  destruct (is_space d); [discriminate|].
  destruct (split_ws (d :: t')); discriminate.
Qed.

Lemma contains_nil_r (d : str) : contains d [] = true -> d = [].
Proof.
  destruct d; simpl; [reflexivity | discriminate].
Qed.

(** ** Splitting and searching *)

Lemma ascii_eqb_refl (c : ascii) : Ascii.eqb c c = true.
Proof. apply Ascii.eqb_eq. reflexivity. Qed.

Lemma str_eqb_eq (a b : str) : str_eqb a b = true <-> a = b.
Proof.
  revert b. induction a as [|x a IH]; destruct b as [|y b]; simpl;
    try (split; [discriminate | congruence]); [tauto|].
  rewrite andb_true_iff, Ascii.eqb_eq, IH. split.
  - intros [-> ->]. reflexivity.
  - intros H. inversion H. auto.
Qed.

Lemma starts_with_app (p s : str) : starts_with p (p ++ s) = true.
Proof.
  induction p as [|x p IH]; simpl; [reflexivity|].
  rewrite ascii_eqb_refl. exact IH.
Qed.

Lemma starts_with_prefix (p s : str) :
  starts_with p s = true -> exists t, s = p ++ t.
Proof.
  revert s. induction p as [|x p IH]; intros s H; simpl in *.
  - exists s. reflexivity.
  - destruct s as [|y s]; [discriminate|].
    apply andb_true_iff in H as [Hxy H]. apply Ascii.eqb_eq in Hxy. subst y.
    destruct (IH s H) as [t ->]. exists t. reflexivity.
Qed.

Lemma contains_cons (d : str) (c : ascii) (s : str) :
  contains d (c :: s) = starts_with d (c :: s) || contains d s.
Proof. reflexivity. Qed.

Lemma contains_starts (d s : str) :
  starts_with d s = true -> contains d s = true.
Proof.
  intros H. destruct s; simpl; rewrite H; reflexivity.
Qed.

(** [d in s] holds exactly when [s] is [a ++ d ++ b]. *)
Lemma contains_iff (d s : str) :
  contains d s = true <-> exists a b, s = a ++ d ++ b.
Proof.
  split.
  - induction s as [|c s IH]; simpl; intros H.
    + rewrite orb_false_r in H. apply starts_with_prefix in H as [t ->].
      exists [], t. reflexivity.
    + apply orb_true_iff in H as [H|H].
      * apply starts_with_prefix in H as [t ->]. exists [], t. reflexivity.
      * destruct (IH H) as (a & b & ->). exists (c :: a), b. reflexivity.
  - intros (a & b & ->). induction a as [|c a IH].
    + simpl app. apply contains_starts. apply starts_with_app.
    + simpl app. rewrite contains_cons, IH. apply orb_true_r.
Qed.

Lemma split_from_nonempty (sep s : str) (skip : nat) : split_from sep s skip <> [].
Proof.
  revert skip. induction s as [|c s IH]; simpl; intros skip; [discriminate|].
  destruct skip; [|apply IH].
  destruct (starts_with sep (c :: s)); [discriminate|].
  specialize (IH 0). destruct (split_from sep s 0); simpl; [congruence | discriminate].
Qed.

(** Splitting on a single character. *)
Lemma split_char_cons (x c : ascii) (s : str) :
  split [x] (c :: s) =
  if Ascii.eqb x c then [] :: split [x] s else cons_head c (split [x] s).
Proof.
  unfold split. simpl. destruct (Ascii.eqb x c); reflexivity.
Qed.

Lemma split_char_none (x : ascii) (a : str) :
  ~ In x a -> split [x] a = [a].
Proof.
  induction a as [|c a IH]; intros H; [reflexivity|].
  rewrite split_char_cons.
  destruct (Ascii.eqb x c) eqn:E.
  - apply Ascii.eqb_eq in E. subst. exfalso. apply H. left. reflexivity.
  - rewrite IH; [reflexivity|]. intros Hin. apply H. right. assumption.
Qed.

Lemma split_char_app (x : ascii) (a b : str) :
  ~ In x a -> split [x] (a ++ x :: b) = a :: split [x] b.
Proof.
  induction a as [|c a IH]; intros H; simpl app.
  - rewrite split_char_cons, ascii_eqb_refl. reflexivity.
  - rewrite split_char_cons.
    destruct (Ascii.eqb x c) eqn:E.
    + apply Ascii.eqb_eq in E. subst. exfalso. apply H. left. reflexivity.
    + rewrite IH; [reflexivity|]. intros Hin. apply H. right. assumption.
Qed.

(** The first piece of [s.split(sep)] is the text before the first
    occurrence of [sep]. *)
Lemma split_head_occurs (sep s : str) :
  contains sep s = true ->
  exists post, s = nth 0 (split sep s) [] ++ sep ++ post.
Proof.
  unfold split. induction s as [|c s IH]; intros H.
  - apply contains_nil_r in H. subst. exists []. reflexivity.
  - simpl split_from. destruct (starts_with sep (c :: s)) eqn:E.
    + apply starts_with_prefix in E as [t E]. exists t. simpl. exact E.
    + rewrite contains_cons, E in H. simpl in H.
      destruct (IH H) as [post Hpost].
      pose proof (split_from_nonempty sep s 0) as Hne.
      destruct (split_from sep s 0) as [|p ps]; [contradiction|].
      simpl in *. exists post. rewrite <- Hpost. reflexivity.
Qed.

Lemma split_head_first (sep s : str) :
  forall k, k < length (nth 0 (split sep s) []) ->
            starts_with sep (skipn k s) = false.
Proof.
  unfold split. induction s as [|c s IH]; intros k Hk.
  - simpl in Hk. lia.
  - simpl split_from in Hk. destruct (starts_with sep (c :: s)) eqn:E.
    + simpl in Hk. lia.
    + pose proof (split_from_nonempty sep s 0) as Hne.
      destruct (split_from sep s 0) as [|p ps] eqn:Es; [contradiction|].
      simpl in Hk. destruct k as [|k]; [exact E|].
      simpl skipn. apply IH. simpl. lia.
Qed.

(** ** Whitespace *)

Lemma rstrip_snoc (s : str) (c : ascii) :
  rstrip (s ++ [c]) = if is_space c then rstrip s else s ++ [c].
Proof.
  unfold rstrip. rewrite rev_app_distr. simpl.
  destruct (is_space c); [reflexivity|].
  simpl. rewrite rev_involutive. reflexivity.
Qed.

Lemma split_ws_space (c : ascii) (s : str) :
  is_space c = true -> split_ws (c :: s) = split_ws s.
Proof. intros H. simpl. rewrite H. reflexivity. Qed.

Lemma split_ws_lstrip (s : str) : split_ws (lstrip s) = split_ws s.
Proof.
  unfold lstrip. induction s as [|c s IH]; [reflexivity|].
  simpl drop_while. destruct (is_space c) eqn:E; [|reflexivity].
  rewrite split_ws_space by assumption. exact IH.
Qed.

Lemma split_ws_cons (c : ascii) (s : str) :
  split_ws (c :: s) =
  if is_space c then split_ws s
  else match s with
       | [] => [[c]]
       | d :: _ => if is_space d then [c] :: split_ws s
                   else cons_head c (split_ws s)
       end.
Proof. reflexivity. Qed.

Lemma split_ws_snoc_space (s : str) (c : ascii) :
  is_space c = true -> split_ws (s ++ [c]) = split_ws s.
Proof.
  intros Hc. induction s as [|x s IH].
  - simpl. rewrite Hc. reflexivity.
  - simpl app. rewrite !(split_ws_cons x). destruct (is_space x); [exact IH|].
    destruct s as [|y s].
    + simpl. rewrite Hc. reflexivity.
    + simpl app in *. rewrite IH. reflexivity.
Qed.

Lemma split_ws_rstrip (s : str) : split_ws (rstrip s) = split_ws s.
Proof.
  induction s as [|c s IH] using rev_ind; [reflexivity|].
  rewrite rstrip_snoc. destruct (is_space c) eqn:E; [|reflexivity].
  rewrite split_ws_snoc_space by assumption. exact IH.
Qed.

(** The tokens of a line are those of the stripped line. *)
Lemma split_ws_strip (s : str) : split_ws (strip s) = split_ws s.
Proof.
  unfold strip. rewrite split_ws_rstrip. apply split_ws_lstrip.
Qed.

Lemma space_neq (x c : ascii) :
  is_space x = false -> is_space c = true -> Ascii.eqb x c = false.
Proof.
  intros Hx Hc. destruct (Ascii.eqb x c) eqn:E; [|reflexivity].
  apply Ascii.eqb_eq in E. congruence.
Qed.

Lemma starts_with_snoc_space (d : str) :
  forall (x : ascii) (s : str) (c : ascii),
    is_space (last d x) = false -> is_space c = true -> d <> [] ->
    starts_with d (s ++ [c]) = starts_with d s.
Proof.
  induction d as [|y d IH]; intros x s c Hl Hc Hne; [congruence|].
  destruct s as [|z s]; simpl app; simpl starts_with.
  - destruct d as [|y' d]; simpl.
    + simpl in Hl. rewrite (space_neq y c Hl Hc). reflexivity.
    + apply andb_false_r.
  - destruct d as [|y' d].
    + simpl. reflexivity.
    + f_equal. apply (IH x); [exact Hl | exact Hc | discriminate].
Qed.

Lemma contains_snoc_space (d : str) (x : ascii) (s : str) (c : ascii) :
  is_space (last d x) = false -> is_space c = true -> d <> [] ->
  contains d (s ++ [c]) = contains d s.
Proof.
  intros Hl Hc Hne. induction s as [|z s IH].
  - simpl. destruct d as [|y d]; [congruence|].
    simpl. destruct d as [|y' d]; simpl.
    + simpl in Hl. rewrite (space_neq y c Hl Hc). reflexivity.
    + rewrite andb_false_r. reflexivity.
  - simpl app. rewrite !contains_cons, IH.
    change (z :: s ++ [c]) with ((z :: s) ++ [c]).
    rewrite (starts_with_snoc_space d x (z :: s) c Hl Hc Hne). reflexivity.
Qed.

(** For a solid [d], [d in s.strip()] is [d in s]. *)
Lemma contains_strip (d s : str) :
  solid d -> contains d (strip s) = contains d s.
Proof.
  intros (x & Hhd & Hx & Hl).
  assert (Hne : d <> []) by (destruct d; [discriminate | discriminate]).
  unfold strip.
  assert (R : forall t, contains d (rstrip t) = contains d t).
  { induction t as [|c t IH] using rev_ind; [reflexivity|].
    rewrite rstrip_snoc. destruct (is_space c) eqn:E; [|reflexivity].
    rewrite (contains_snoc_space d x t c Hl E Hne). exact IH. }
  rewrite R. unfold lstrip.
  induction s as [|c s IH]; [reflexivity|].
  simpl drop_while. destruct (is_space c) eqn:E; [|reflexivity].
  rewrite IH, contains_cons.
  destruct d as [|y d]; [congruence|]. simpl in Hhd. inversion Hhd; subst y.
  simpl starts_with. rewrite (space_neq x c Hx E). reflexivity.
Qed.

(** ** Matching *)

#[local] Arguments Ascii.eqb : simpl never.
#[local] Arguments is_space : simpl never.
#[local] Arguments is_digit : simpl never.
#[local] Arguments is_word : simpl never.
#[local] Arguments is_upper_AZ : simpl never.
#[local] Arguments is_dot : simpl never.
#[local] Arguments in_range : simpl never.
#[local] Arguments to_lower : simpl never.
#[local] Arguments consumed : simpl never.

Lemma consumed_same (s : str) : consumed s s = [].
Proof. unfold consumed. rewrite Nat.sub_diag. reflexivity. Qed.

Lemma consumed_cons (c : ascii) (s t : str) :
  length t <= length s -> consumed (c :: s) t = c :: consumed s t.
Proof.
  intros H. unfold consumed. simpl length.
  replace (S (length s) - length t) with (S (length s - length t)) by lia.
  reflexivity.
Qed.

Lemma consumed_app (a b : str) : consumed (a ++ b) b = a.
Proof.
  induction a as [|c a IH]; simpl.
  - apply consumed_same.
  - rewrite consumed_cons by (rewrite length_app; lia). rewrite IH. reflexivity.
Qed.

(** [re.search] returns the match at the leftmost position that has one. *)
Lemma search_from_some (r : regex) (s : str) :
  forall pv m,
    search_from r pv s = Some m ->
    exists a b,
      s = a ++ b /\ match_at r (prev_of pv a) b = Some m /\
      forall a' b', s = a' ++ b' -> length a' < length a ->
                    match_at r (prev_of pv a') b' = None.
Proof.
  induction s as [|c s IH]; intros pv m H; simpl in H.
  - destruct (match_at r pv []) eqn:E; [|discriminate]. inversion H; subst.
    exists [], []. repeat split; auto. simpl. intros; lia.
  - destruct (match_at r pv (c :: s)) eqn:E.
    + inversion H; subst. exists [], (c :: s). repeat split; auto.
      simpl. intros; lia.
    + destruct (IH _ _ H) as (a & b & -> & Hm & Hfirst).
      exists (c :: a), b. repeat split; auto.
      intros a' b' Heq Hlen. destruct a' as [|c' a'].
      * simpl in Heq. subst b'. exact E.
      * simpl in Heq. inversion Heq; subst c'. simpl.
        apply Hfirst; [assumption | simpl in Hlen; lia].
Qed.

Lemma search_from_none (r : regex) (s : str) :
  forall pv,
    search_from r pv s = None ->
    forall a b, s = a ++ b -> match_at r (prev_of pv a) b = None.
Proof.
  induction s as [|c s IH]; intros pv H a b Heq; simpl in H.
  - destruct (match_at r pv []) eqn:E; [discriminate|].
    destruct a; [|discriminate]. simpl in Heq. subst b. exact E.
  - destruct (match_at r pv (c :: s)) eqn:E; [discriminate|].
    destruct a as [|c' a].
    + simpl in Heq. subst b. exact E.
    + simpl in Heq. inversion Heq; subst c'. simpl. apply (IH _ H). assumption.
Qed.

Lemma search_from_leftmost (r : regex) (a b : str) :
  forall pv m,
    match_at r (prev_of pv a) b = Some m ->
    (forall a' b', a ++ b = a' ++ b' -> length a' < length a ->
                   match_at r (prev_of pv a') b' = None) ->
    search_from r pv (a ++ b) = Some m.
Proof.
  induction a as [|c a IH]; intros pv m Hm Hfirst.
  - simpl in *. destruct b; simpl; rewrite Hm; reflexivity.
  - simpl app. simpl search_from.
    pose proof (Hfirst [] (c :: a ++ b) eq_refl ltac:(simpl; lia)) as H0.
    simpl in H0. rewrite H0.
    apply IH; [exact Hm|].
    intros a' b' Heq Hlen. apply (Hfirst (c :: a') b').
    + simpl. rewrite Heq. reflexivity.
    + simpl. lia.
Qed.

Lemma search_from_absent (r : regex) (s : str) :
  forall pv,
    (forall a b, s = a ++ b -> match_at r (prev_of pv a) b = None) ->
    search_from r pv s = None.
Proof.
  induction s as [|c s IH]; intros pv H; simpl.
  - pose proof (H [] [] eq_refl) as H0. simpl in H0. rewrite H0. reflexivity.
  - pose proof (H [] (c :: s) eq_refl) as H0. simpl in H0. rewrite H0.
    apply IH. intros a b Heq. apply (H (c :: a) b). simpl. rewrite Heq. reflexivity.
Qed.

Lemma gnum_match_at (pv : option ascii) (s : str) (m : Match) :
  match_at GNUM_RE pv s = Some m ->
  exists post, s = group 1 m ++ post /\ is_gnum (group 1 m) /\
               whole m = group 1 m.
Proof.
  unfold match_at, GNUM_RE. intros H.
  do 9 (destruct s as [|? s]; [cbn in H; split_if H; discriminate H|]).
  cbn in H. split_if H.
  repeat rewrite consumed_cons in H by (simpl; lia).
  rewrite consumed_same in H. inversion H; subst m; clear H.
  apply Ascii.eqb_eq in E. subst.
  exists s. cbn. split; [reflexivity|]. split; [|reflexivity].
  eexists. split; [reflexivity|]. split; [reflexivity|].
  cbn. rewrite E0, E1, E2, E3, E4, E5, E6, E7. reflexivity.
Qed.

Lemma gnum_match_here (pv : option ascii) (g post : str) :
  is_gnum g ->
  match_at GNUM_RE pv (g ++ post) = Some (MkMatch g [(1, g)]).
Proof.
  intros (d & -> & Hlen & Hd).
  do 8 (destruct d as [|? d]; [discriminate Hlen|]).
  destruct d; [|discriminate Hlen]. clear Hlen.
  cbn in Hd. repeat (apply andb_true_iff in Hd as [? Hd]).
  unfold match_at, GNUM_RE. cbn.
  repeat match goal with H : is_digit _ = true |- _ => rewrite H; clear H end.
  repeat rewrite consumed_cons by (simpl; lia).
  rewrite consumed_same. reflexivity.
Qed.

(** [x in allowed] is membership. *)
Lemma mem_In (x : str) (l : list str) : mem x l = true <-> In x l.
Proof.
  unfold mem. rewrite existsb_exists. split.
  - intros (y & Hy & E). apply str_eqb_eq in E. subst. exact Hy.
  - intros H. exists x. split; [exact H | apply str_eqb_eq; reflexivity].
Qed.

(** A line on which [re.search] finds a G-number holds it as a substring. *)
Lemma gnum_search_occurs (line : str) (m : Match) :
  re_search GNUM_RE line = Some m ->
  is_gnum (group 1 m) /\ contains (group 1 m) line = true.
Proof.
  intros H. apply search_from_some in H as (a & b & -> & Hm & _).
  apply gnum_match_at in Hm as (post & Hb & Hg & _).
  split; [exact Hg|]. apply contains_iff. exists a, post. rewrite <- Hb. reflexivity.
Qed.

(** A line contains the identifier pattern exactly when [re.search] finds
    a G-number on it. *)
Lemma gnum_search_iff (line : str) :
  re_search GNUM_RE line <> None <->
  exists a g b, line = a ++ g ++ b /\ is_gnum g.
Proof.
  split.
  - intros H. destruct (re_search GNUM_RE line) as [m|] eqn:E; [|congruence].
    destruct (gnum_search_occurs line m E) as [Hg Hc].
    apply contains_iff in Hc as (a & b & ->). exists a, (group 1 m), b. auto.
  - intros (a & g & b & -> & Hg) H.
    pose proof (search_from_none _ _ _ H a (g ++ b) eq_refl) as Hn.
    rewrite gnum_match_here in Hn by assumption. discriminate.
Qed.

(** ** The student-row loop *)

Lemma tryExtract_no_context (settings : Settings) (lines : list str) (idx : nat) :
  tryExtract settings lines idx None = Ok (None, idx + 1).
Proof.
  unfold tryExtract. destruct (re_search GNUM_RE (nth idx lines [])); reflexivity.
Qed.

Lemma tryExtract_no_gnum (settings : Settings) (lines : list str) (idx : nat)
      (cur : option ClassContext) :
  re_search GNUM_RE (nth idx lines []) = None ->
  tryExtract settings lines idx cur = Ok (None, idx + 1).
Proof.
  unfold tryExtract. intros ->. reflexivity.
Qed.

Lemma tryExtract_active (settings : Settings) (lines : list str) (idx : nat)
      (cur : ClassContext) (m : Match) :
  re_search GNUM_RE (nth idx lines []) = Some m ->
  tryExtract settings lines idx (Some cur) =
  (email <- email_of settings lines idx ;;
   Ok (Some (MkRecord (snd (names (nth idx lines []) (group 1 m)))
                      (fst (names (nth idx lines []) (group 1 m)))
                      (group 1 m) email [] (class_label cur) (ctx_CRN cur)),
       idx + 2)).
Proof.
  unfold tryExtract. intros ->.
  destruct (names (nth idx lines []) (group 1 m)); reflexivity.
Qed.

(** With a non-empty [email_domain], the e-mail step returns. *)
Lemma email_of_returns (settings : Settings) (lines : list str) (idx : nat) :
  email_domain settings <> [] ->
  exists e, email_of settings lines idx = Ok e.
Proof.
  intros Hd. unfold email_of.
  destruct (idx + 1 <? length lines); [|eauto].
  destruct (contains (email_domain settings) (strip (nth (idx + 1) lines [])))
    eqn:Hc; [|eauto].
  destruct (strip (nth (idx + 1) lines [])) as [|c t] eqn:Hs.
  - apply contains_nil_r in Hc. contradiction.
  - pose proof (split_ws_hd_not_space c t (strip_hd_not_space _ _ _ Hs)) as Hne.
    unfold index. destruct (split_ws (c :: t)); [contradiction | simpl; eauto].
Qed.

Lemma tryExtract_tagged (settings : Settings) (lines : list str) (idx : nat)
      (cur : option ClassContext) (r : StudentRecord) (idx' : nat) :
  tryExtract settings lines idx cur = Ok (Some r, idx') ->
  tagged_by cur r /\ idx' = idx + 2.
Proof.
  unfold tryExtract.
  destruct (re_search GNUM_RE (nth idx lines [])) as [m|]; [|discriminate].
  destruct cur as [c|]; [|discriminate].
  destruct (names _ _) as [l f].
  destruct (email_of settings lines idx); simpl; try discriminate.
  intros H; inversion H; subst; clear H. split; [|reflexivity].
  exists c. auto.
Qed.

Lemma tryExtract_skip (settings : Settings) (lines : list str) (idx : nat)
      (cur : option ClassContext) (idx' : nat) :
  tryExtract settings lines idx cur = Ok (None, idx') -> idx' = idx + 1.
Proof.
  unfold tryExtract.
  destruct (re_search GNUM_RE (nth idx lines [])) as [m|];
    [destruct cur as [c|]|]; try (intros H; inversion H; reflexivity).
  destruct (names _ _) as [l f].
  destruct (email_of settings lines idx); simpl; discriminate.
Qed.

Lemma student_rows_tagged (settings : Settings) (cur : option ClassContext)
      (lines : list str) (fuel : nat) :
  forall idx recs out,
    student_rows fuel settings cur lines idx recs = Ok out ->
    exists new, out = recs ++ new /\ forall r, In r new -> tagged_by cur r.
Proof.
  induction fuel as [|fuel IH]; simpl; intros idx recs out H.
  - discriminate.
  - destruct (idx <? length lines).
    + destruct (tryExtract settings lines idx cur) as [[[r|] idx']| |] eqn:E;
        simpl in H; try discriminate.
      * apply IH in H as (new & -> & Hn).
        exists (r :: new). split.
        { rewrite <- app_assoc. reflexivity. }
        intros r' [<-|Hr]; [|auto].
        apply tryExtract_tagged in E. tauto.
      * apply IH in H. exact H.
    + inversion H; subst. exists []. rewrite app_nil_r. split; [reflexivity|].
      intros r [].
Qed.

(** The accumulator only collects: the loop from [recs] is the loop from the
    empty list, appended to [recs]. *)
Lemma student_rows_acc (settings : Settings) (cur : option ClassContext)
      (lines : list str) (fuel : nat) :
  forall idx recs,
    student_rows fuel settings cur lines idx recs =
    (new <- student_rows fuel settings cur lines idx [] ;; Ok (recs ++ new)).
Proof.
  induction fuel as [|fuel IH]; simpl; intros idx recs.
  - reflexivity.
  - destruct (idx <? length lines).
    + destruct (tryExtract settings lines idx cur) as [[[r|] idx']| |];
        simpl; try reflexivity.
      * rewrite (IH idx' (recs ++ [r])), (IH idx' [r]).
        destruct (student_rows fuel settings cur lines idx' []); simpl;
          try reflexivity.
        rewrite <- app_assoc. reflexivity.
      * apply IH.
    + simpl. rewrite app_nil_r. reflexivity.
Qed.

(** The bound [S (len lines)] is never reached. *)
Lemma student_rows_fuel (settings : Settings) (cur : option ClassContext)
      (lines : list str) (fuel : nat) :
  forall idx recs,
    length lines - idx < fuel ->
    student_rows fuel settings cur lines idx recs <> OutOfFuel.
Proof.
  induction fuel as [|fuel IH]; simpl; intros idx recs Hf.
  - lia.
  - destruct (idx <? length lines) eqn:Hlt; [|discriminate].
    apply Nat.ltb_lt in Hlt.
    destruct (tryExtract settings lines idx cur) as [[[r|] idx']| |] eqn:E;
      simpl; try discriminate.
    + apply tryExtract_tagged in E as [_ ->]. apply IH. lia.
    + apply tryExtract_skip in E as ->. apply IH. lia.
    + exfalso. unfold tryExtract in E.
      destruct (re_search GNUM_RE (nth idx lines [])); [destruct cur|];
        try discriminate.
      destruct (names _ _). unfold email_of in E.
      destruct (idx + 1 <? length lines); [|discriminate].
      destruct (contains _ _); [|discriminate].
      unfold index in E. destruct (nth_error _ 0); discriminate.
Qed.

(** With a non-empty [email_domain] the loop returns its records. *)
Lemma student_rows_returns (settings : Settings) (cur : option ClassContext)
      (lines : list str) (fuel : nat) :
  email_domain settings <> [] ->
  forall idx recs,
    length lines - idx < fuel ->
    exists out, student_rows fuel settings cur lines idx recs = Ok out.
Proof.
  intros Hd. induction fuel as [|fuel IH]; simpl; intros idx recs Hf.
  - lia.
  - destruct (idx <? length lines) eqn:Hlt; [|eauto].
    apply Nat.ltb_lt in Hlt.
    assert (Hstep : exists o idx', tryExtract settings lines idx cur = Ok (o, idx')
                                  /\ idx < idx').
    { unfold tryExtract.
      destruct (re_search GNUM_RE (nth idx lines [])); [destruct cur|].
      - destruct (names _ _).
        destruct (email_of_returns settings lines idx Hd) as [e ->]. simpl.
        do 2 eexists. split; [reflexivity | lia].
      - do 2 eexists. split; [reflexivity | lia].
      - do 2 eexists. split; [reflexivity | lia]. }
    destruct Hstep as (o & idx' & -> & Hlt'). simpl.
    destruct o; apply IH; lia.
Qed.

(** Without a context the loop appends nothing. *)
Lemma student_rows_no_context (settings : Settings) (lines : list str)
      (fuel : nat) :
  forall idx recs,
    length lines - idx < fuel ->
    student_rows fuel settings None lines idx recs = Ok recs.
Proof.
  induction fuel as [|fuel IH]; simpl; intros idx recs Hf.
  - lia.
  - destruct (idx <? length lines) eqn:Hlt; [|reflexivity].
    apply Nat.ltb_lt in Hlt.
    rewrite tryExtract_no_context. simpl. apply IH. lia.
Qed.

(** ** The header loop *)

(** A header line decides the context by itself. *)
Lemma onHeader_header (settings : Settings) (cur : option ClassContext) (h : str) :
  re_match COURSE_RE h <> None ->
  onHeader settings cur h = onHeader settings None h.
Proof.
  unfold onHeader. destruct (re_match COURSE_RE h); [reflexivity | congruence].
Qed.

Lemma onHeader_other (settings : Settings) (cur : option ClassContext) (l : str) :
  re_match COURSE_RE l = None -> onHeader settings cur l = cur.
Proof.
  unfold onHeader. intros ->. reflexivity.
Qed.

Lemma header_pass_app (settings : Settings) (cur : option ClassContext)
      (a b : list str) :
  header_pass settings cur (a ++ b) =
  header_pass settings (header_pass settings cur a) b.
Proof.
  unfold header_pass. apply fold_left_app.
Qed.

Lemma header_pass_no_header (settings : Settings) (lines : list str) :
  forall cur,
    (forall l, In l lines -> re_match COURSE_RE l = None) ->
    header_pass settings cur lines = cur.
Proof.
  induction lines as [|l lines IH]; simpl; intros cur H; [reflexivity|].
  rewrite onHeader_other by (apply H; left; reflexivity).
  apply IH. intros l' Hl'. apply H. right. assumption.
Qed.

(** The context after the loop is the one that the last header line leaves. *)
Lemma header_pass_last (settings : Settings) (cur : option ClassContext)
      (pre : list str) (h : str) (post : list str) :
  re_match COURSE_RE h <> None ->
  (forall l, In l post -> re_match COURSE_RE l = None) ->
  header_pass settings cur (pre ++ h :: post) = onHeader settings None h.
Proof.
  intros Hh Hpost. rewrite header_pass_app. simpl.
  change (fold_left (onHeader settings) post ?c) with (header_pass settings c post).
  rewrite header_pass_no_header by assumption.
  apply onHeader_header. assumption.
Qed.

(** A cleared context stays cleared over lines of which none is a header
    that passes the filter. *)
Lemma header_pass_stays_cleared (settings : Settings) (lines : list str) :
  (forall l, In l lines -> onHeader settings None l = None) ->
  header_pass settings None lines = None.
Proof.
  induction lines as [|l lines IH]; simpl; intros H; [reflexivity|].
  rewrite (H l) by (left; reflexivity).
  apply IH. intros l' Hl'. apply H. right. assumption.
Qed.

Lemma header_pass_origin (settings : Settings) (lines : list str) :
  forall cur c,
    header_pass settings cur lines = Some c ->
    cur = Some c \/ exists h, In h lines /\ onHeader settings None h = Some c.
Proof.
  induction lines as [|l lines IH]; simpl; intros cur c H; [auto|].
  apply IH in H as [H | (h & Hin & Hh)].
  - destruct (re_match COURSE_RE l) eqn:E.
    + right. exists l. split; [left; reflexivity|].
      rewrite <- (onHeader_header settings cur); [assumption | congruence].
    + rewrite onHeader_other in H by assumption. auto.
  - right. exists h. auto.
Qed.

(** ** Pages *)

Lemma walk_page_inv (settings : Settings) (st : WalkState) (page : option str)
      (st' : WalkState) :
  walk_page settings st page = Ok st' ->
  current_class st' = header_pass settings (current_class st) (page_lines page) /\
  exists new,
    records st' = records st ++ new /\
    student_rows (S (length (page_lines page))) settings (current_class st')
                 (page_lines page) 0 [] = Ok new /\
    forall r, In r new -> tagged_by (current_class st') r.
Proof.
  unfold walk_page. fold (page_lines page).
  set (lines := page_lines page).
  set (cur := header_pass settings (current_class st) lines).
  rewrite student_rows_acc.
  destruct (student_rows (S (length lines)) settings cur lines 0 []) as [new| |] eqn:E;
    simpl; try discriminate.
  intros H; inversion H; subst; clear H. simpl. split; [reflexivity|].
  exists new. repeat split; try assumption.
  apply student_rows_tagged in E as (new' & Hn & Ht). simpl in Hn. subst new'.
  assumption.
Qed.

(** A page walked without a context leaves the records as they are. *)
Lemma walk_page_cleared (settings : Settings) (st : WalkState) (page : option str) :
  header_pass settings (current_class st) (page_lines page) = None ->
  walk_page settings st page = Ok (MkWalk None (records st)).
Proof.
  unfold walk_page. fold (page_lines page). intros ->.
  rewrite student_rows_no_context by lia. reflexivity.
Qed.

Lemma walk_page_returns (settings : Settings) (st : WalkState) (page : option str) :
  email_domain settings <> [] ->
  exists st', walk_page settings st page = Ok st'.
Proof.
  intros Hd. unfold walk_page.
  destruct (student_rows_returns settings
              (header_pass settings (current_class st) (split NL (page_text page)))
              (split NL (page_text page))
              (S (length (split NL (page_text page)))) Hd 0 (records st))
    as [out ->]; [lia|].
  simpl. eauto.
Qed.

Lemma walk_pages_returns (settings : Settings) (pages : list (option str)) :
  email_domain settings <> [] ->
  forall st, exists st', walk_pages settings st pages = Ok st'.
Proof.
  intros Hd. induction pages as [|page pages IH]; simpl; intros st; [eauto|].
  destruct (walk_page_returns settings st page Hd) as [st1 ->]. simpl. apply IH.
Qed.

Lemma walk_pages_inv (settings : Settings) (pages : list (option str)) :
  forall st st',
    walk_pages settings st pages = Ok st' ->
    current_class st' = ctx_from settings (current_class st) pages /\
    exists new,
      records st' = records st ++ new /\
      forall r, In r new ->
        exists k page c rows,
          nth_error pages k = Some page /\
          ctx_from settings (current_class st) (firstn (S k) pages) = Some c /\
          student_rows (S (length (page_lines page))) settings (Some c)
                       (page_lines page) 0 [] = Ok rows /\
          In r rows /\ rec_Class r = class_label c /\ rec_CRN r = ctx_CRN c.
Proof.
  induction pages as [|page pages IH]; simpl; intros st st' H.
  - inversion H; subst. split; [reflexivity|].
    exists []. rewrite app_nil_r. split; [reflexivity|]. intros r [].
  - destruct (walk_page settings st page) as [st1| |] eqn:E; simpl in H;
      try discriminate.
    apply walk_page_inv in E as (Hc & new1 & Hr1 & Hrows & Ht).
    apply IH in H as (Hc' & new2 & Hr2 & Hin2).
    rewrite Hc in Hc'. split; [exact Hc'|].
    exists (new1 ++ new2). split.
    { rewrite Hr2, Hr1, app_assoc. reflexivity. }
    intros r Hr. apply in_app_or in Hr as [Hr|Hr].
    + destruct (Ht r Hr) as (c & Hcur & Hcl & Hcrn).
      exists 0, page, c, new1. simpl. rewrite <- Hc, Hcur.
      rewrite Hcur in Hrows. auto 10.
    + destruct (Hin2 r Hr) as (k & pg & c & rows & Hk & Hctx & Hrows' & Hi & Hl).
      exists (S k), pg, c, rows. simpl. simpl in Hctx. rewrite <- Hc.
      auto 10.
Qed.

Lemma ctx_from_origin (settings : Settings) (pages : list (option str)) :
  forall cur c,
    ctx_from settings cur pages = Some c ->
    cur = Some c \/
    exists page h, In page pages /\ In h (page_lines page) /\
                   onHeader settings None h = Some c.
Proof.
  induction pages as [|page pages IH]; simpl; intros cur c H; [auto|].
  apply IH in H as [H | (pg & h & Hp & Hh & Ho)].
  - apply header_pass_origin in H as [H | (h & Hh & Ho)]; [auto|].
    right. exists page, h. auto.
  - right. exists pg, h. auto.
Qed.

(** ** The walk of the pages *)

(** C1.  On every page the header loop runs over all the lines before the
    row loop starts: the context in force for the page is the one the header
    loop leaves, every record appended for the page carries that context's
    class label and CRN, and that context is the one the page's last header
    line sets or clears (the incoming one when the page has no header line),
    wherever on the page the student lines are. *)
Theorem C1_headers_resolved_before_rows :
  forall (settings : Settings) (st st' : WalkState) (page : option str),
    walk_page settings st page = Ok st' ->
    current_class st' =
      header_pass settings (current_class st) (page_lines page) /\
    (exists new,
        records st' = records st ++ new /\
        forall r, In r new -> tagged_by (current_class st') r) /\
    (forall pre h post,
        page_lines page = pre ++ h :: post ->
        re_match COURSE_RE h <> None ->
        (forall l, In l post -> re_match COURSE_RE l = None) ->
        current_class st' = onHeader settings None h) /\
    ((forall l, In l (page_lines page) -> re_match COURSE_RE l = None) ->
     current_class st' = current_class st).
Proof.
  intros settings st st' page H.
  apply walk_page_inv in H as (Hc & new & Hr & _ & Ht).
  split; [exact Hc|]. split; [exists new; auto|]. split.
  - intros pre h post Hl Hh Hpost. rewrite Hc, Hl.
    apply header_pass_last; assumption.
  - intros Hno. rewrite Hc. apply header_pass_no_header. assumption.
Qed.

(** The student line comes first on the page, the header line last: the
    record carries the header's class. *)
Lemma C1_witness :
  walk_page DEFAULT_SETTINGS (MkWalk None []) C1_page = Ok C1_state /\
  current_class C1_state =
    onHeader DEFAULT_SETTINGS None "12345 GEO 170 1 Intro to Geography".
Proof.
  assert (H : walk_page DEFAULT_SETTINGS (MkWalk None []) C1_page = Ok C1_state)
    by (vm_compute; reflexivity).
  split; [exact H|].
  destruct (C1_headers_resolved_before_rows DEFAULT_SETTINGS (MkWalk None [])
              C1_state C1_page H) as (_ & _ & Hlast & _).
  apply (Hlast ["1 Doe, Jane G12345678"; "jdoe@pcc.edu"]
               "12345 GEO 170 1 Intro to Geography" []).
  - vm_compute; reflexivity.
  - vm_compute; discriminate.
  - intros l [].
Defined.

(** C3.  With an empty [email_domain] and a blank line after the student
    line, the row step raises [IndexError] instead of appending a record and
    moving the cursor by 2: [''] is in the stripped line, which has no first
    token.  The student line holds a G-number and the context is active. *)
Theorem C3_blank_follow_line_raises :
  let settings := MkSettings None "" in
  let lines := ["1 Doe, Jane G12345678"; ""] in
  let cur := Some (MkContext "12345" "GEO" "170" "1" "Intro to Geography") in
  re_search GNUM_RE (nth 0 lines []) <> None /\
  tryExtract settings lines 0 cur = Raised IndexError /\
  student_rows (S (length lines)) settings cur lines 0 [] = Raised IndexError /\
  tryExtract DEFAULT_SETTINGS lines 0 cur =
    Ok (Some (MkRecord "Jane" "Doe" "G12345678" "" "" "GEO 170" "12345"), 2).
Proof.
  vm_compute. repeat split; try reflexivity. discriminate.
Qed.

(** The cursor rule, for every setting with a non-empty [email_domain]: a
    line with a G-number under an active context appends one record and moves
    the cursor by 2, whatever follows; any other line appends nothing and
    moves it by 1. *)
Lemma tryExtract_cursor (settings : Settings) (lines : list str) (idx : nat)
      (cur : option ClassContext) :
  email_domain settings <> [] ->
  (re_search GNUM_RE (nth idx lines []) <> None -> cur <> None ->
   exists r, tryExtract settings lines idx cur = Ok (Some r, idx + 2)) /\
  (re_search GNUM_RE (nth idx lines []) = None \/ cur = None ->
   tryExtract settings lines idx cur = Ok (None, idx + 1)).
Proof.
  intros Hd. split.
  - intros Hg Hc.
    destruct (re_search GNUM_RE (nth idx lines [])) as [m|] eqn:E; [|congruence].
    destruct cur as [c|]; [|congruence].
    rewrite (tryExtract_active settings lines idx c m E).
    destruct (email_of_returns settings lines idx Hd) as [e ->]. simpl. eauto.
  - intros [Hg | ->].
    + apply tryExtract_no_gnum. assumption.
    + apply tryExtract_no_context.
Qed.

(** C6.  Every record of the walk was appended by the row loop of some page
    under the context [c] in force there, carries the class label and the CRN
    of [c], and [c] was set by a header line that passed the filter; without
    a context the row step appends nothing. *)
Theorem C6_records_under_active_context :
  forall (settings : Settings) (pages : list (option str))
         (recs : list StudentRecord),
    walk settings pages = Ok recs ->
    (forall r, In r recs ->
       exists k page c rows,
         nth_error pages k = Some page /\
         ctx_from settings None (firstn (S k) pages) = Some c /\
         student_rows (S (length (page_lines page))) settings (Some c)
                      (page_lines page) 0 [] = Ok rows /\
         In r rows /\
         rec_Class r = class_label c /\ rec_CRN r = ctx_CRN c /\
         exists page' h, In page' (firstn (S k) pages) /\
                         In h (page_lines page') /\
                         onHeader settings None h = Some c) /\
    (forall lines idx, tryExtract settings lines idx None = Ok (None, idx + 1)).
Proof.
  intros settings pages recs H. split; [|intros; apply tryExtract_no_context].
  unfold walk in H.
  destruct (walk_pages settings (MkWalk None []) pages) as [st| |] eqn:E;
    simpl in H; try discriminate.
  inversion H; subst; clear H.
  apply walk_pages_inv in E as (_ & new & Hr & Hin). simpl in Hr, Hin.
  intros r Hrin. rewrite Hr in Hrin.
  destruct (Hin r Hrin) as (k & page & c & rows & Hk & Hctx & Hrows & Hi & Hl & Hn).
  exists k, page, c, rows. repeat (split; [assumption|]).
  apply ctx_from_origin in Hctx as [Hctx|Hctx]; [discriminate | exact Hctx].
Qed.

Lemma C6_witness :
  exists recs,
    walk DEFAULT_SETTINGS [C1_page] = Ok recs /\
    forall r, In r recs ->
      exists c, rec_Class r = class_label c /\ rec_CRN r = ctx_CRN c.
Proof.
  exists (records C1_state).
  assert (H : walk DEFAULT_SETTINGS [C1_page] = Ok (records C1_state))
    by (vm_compute; reflexivity).
  split; [exact H|].
  intros r Hr.
  destruct (C6_records_under_active_context DEFAULT_SETTINGS [C1_page]
              (records C1_state) H) as [Hall _].
  destruct (Hall r Hr) as (_ & _ & c & _ & _ & _ & _ & _ & Hl & Hc & _).
  exists c. split; assumption.
Defined.

Lemma walk_pages_cleared (settings : Settings) (pages : list (option str)) :
  forall recs,
    (forall pg l, In pg pages -> In l (page_lines pg) ->
                  onHeader settings None l = None) ->
    walk_pages settings (MkWalk None recs) pages = Ok (MkWalk None recs).
Proof.
  induction pages as [|page pages IH]; simpl; intros recs H; [reflexivity|].
  rewrite walk_page_cleared.
  - simpl. apply IH. intros pg l Hp Hl. apply (H pg l); auto.
  - simpl. apply header_pass_stays_cleared. intros l Hl. apply (H page l); auto.
Qed.

(** C5, as the code has it.  A header line whose course number is not in the
    configured allow-list clears the context, whatever it was.  The header
    loop of a page runs before its row loop, so the cleared context is the
    one in force for the page when no later header line of the page passes
    the filter: then no line of the page appends a record, and none does on
    the following pages as long as they hold no header line that passes. *)
Theorem C5_rejected_header_clears_context :
  forall (settings : Settings) (allowed : list str) (h : str) (m : Match),
    allowed_courses settings = Some allowed ->
    re_match COURSE_RE h = Some m ->
    mem (group 3 m) allowed = false ->
    (forall cur, onHeader settings cur h = None) /\
    (forall st page pre post pages,
        page_lines page = pre ++ h :: post ->
        (forall l, In l post -> onHeader settings None l = None) ->
        (forall pg l, In pg pages -> In l (page_lines pg) ->
                      onHeader settings None l = None) ->
        walk_pages settings st (page :: pages) = Ok (MkWalk None (records st))).
Proof.
  intros settings allowed h m Ha Hm Hmem.
  assert (Hclear : forall cur, onHeader settings cur h = None).
  { intros cur. unfold onHeader. rewrite Hm, Ha, Hmem. reflexivity. }
  split; [exact Hclear|].
  intros st page pre post pages Hl Hpost Hpages. simpl.
  rewrite walk_page_cleared.
  - simpl. apply walk_pages_cleared. assumption.
  - rewrite Hl, header_pass_app. simpl. rewrite Hclear.
    apply header_pass_stays_cleared. assumption.
Qed.

(** With [allowed_courses = {'170'}] the header of GEO 221 clears the
    context and the student line after it appends nothing; with the filter
    off the same line appends a record. *)
Lemma C5_witness :
  walk_pages C5_settings (MkWalk None []) [C5_page] = Ok (MkWalk None []) /\
  walk (MkSettings None "@pcc.edu") [C5_page] =
    Ok [MkRecord "John" "Smith" "G87654321" "" "" "GEO 221" "54321"].
Proof.
  split; [|vm_compute; reflexivity].
  destruct (re_match COURSE_RE C5_header) as [m|] eqn:E;
    [|vm_compute in E; discriminate].
  refine (proj2 (C5_rejected_header_clears_context C5_settings ["170"] C5_header m
                   eq_refl E _) (MkWalk None []) C5_page [] ["2 Smith, John G87654321"]
                [] _ _ _).
  - vm_compute in E. inversion E; subst. vm_compute. reflexivity.
  - vm_compute. reflexivity.
  - intros l [<-|[]]. vm_compute. reflexivity.
  - intros pg l [].
Defined.

(** The student line stands after the rejected header of GEO 221 and before
    the next header that passes the filter, on the same page: it appends a
    record all the same, under the later header. *)
Lemma C5_counterexample :
  onHeader C5_settings None C5_header = None /\
  page_lines C5_mixed_page =
    [C5_header; "2 Smith, John G87654321"; ""; "12345 GEO 170 1 Intro to Geography"] /\
  walk C5_settings [C5_mixed_page] =
    Ok [MkRecord "John" "Smith" "G87654321" "" "" "GEO 170" "12345"] /\
  walk C5_settings [C5_mixed_page] <> Ok [].
Proof.
  vm_compute. repeat split; try reflexivity. discriminate.
Qed.

(** C9, as the code has it.  Under an active context and with a non-empty
    [email_domain], a student line appends a record whose e-mail is decided
    by the next line with its surrounding whitespace stripped: when there is
    a next line and the stripped line contains the domain, the e-mail is the
    first whitespace-delimited token of the line; in every other case it is
    empty.  For a domain that neither starts nor ends with whitespace the
    stripped line contains it exactly when the line does. *)
Theorem C9_email_from_next_line :
  forall (settings : Settings) (lines : list str) (idx : nat)
         (cur : ClassContext) (m : Match),
    re_search GNUM_RE (nth idx lines []) = Some m ->
    email_domain settings <> [] ->
    let follow := nth (idx + 1) lines [] in
    exists r,
      tryExtract settings lines idx (Some cur) = Ok (Some r, idx + 2) /\
      (idx + 1 < length lines ->
       contains (email_domain settings) (strip follow) = true ->
       index (split_ws follow) 0 = Ok (PCC_email_address r)) /\
      (idx + 1 < length lines ->
       contains (email_domain settings) (strip follow) = false ->
       PCC_email_address r = []) /\
      (length lines <= idx + 1 -> PCC_email_address r = []) /\
      (solid (email_domain settings) ->
       contains (email_domain settings) (strip follow) =
       contains (email_domain settings) follow).
Proof.
  intros settings lines idx cur m Hm Hd follow.
  rewrite (tryExtract_active settings lines idx cur m Hm).
  destruct (email_of_returns settings lines idx Hd) as [e He].
  rewrite He. simpl. eexists. split; [reflexivity|]. simpl.
  unfold email_of in He. fold follow in He.
  repeat split.
  - intros Hlt Hc. apply Nat.ltb_lt in Hlt. rewrite Hlt, Hc in He.
    rewrite split_ws_strip in He. exact He.
  - intros Hlt Hc. apply Nat.ltb_lt in Hlt. rewrite Hlt, Hc in He.
    inversion He. reflexivity.
  - intros Hge. apply Nat.ltb_ge in Hge. rewrite Hge in He.
    inversion He. reflexivity.
  - intros Hs. apply contains_strip. assumption.
Qed.

(** The follow line ['  jdoe@pcc.edu  extra text'] gives the e-mail
    ['jdoe@pcc.edu']. *)
Lemma C9_witness :
  exists r,
    tryExtract DEFAULT_SETTINGS C9_lines 0 (Some C9_context) = Ok (Some r, 2) /\
    PCC_email_address r = "jdoe@pcc.edu".
Proof.
  destruct (re_search GNUM_RE (nth 0 C9_lines [])) as [m|] eqn:E;
    [|vm_compute in E; discriminate].
  destruct (C9_email_from_next_line DEFAULT_SETTINGS C9_lines 0 C9_context m E)
    as (r & Hr & Hin & _); [vm_compute; discriminate|].
  exists r. split; [exact Hr|].
  assert (H : index (split_ws (nth (0 + 1) C9_lines [])) 0 =
              Ok (PCC_email_address r)).
  { apply Hin; [vm_compute; lia | vm_compute; reflexivity]. }
  change (nth (0 + 1) C9_lines []) with ("  jdoe@pcc.edu  extra text" : str) in H.
  change (index (split_ws "  jdoe@pcc.edu  extra text") 0)
    with (Ok ("jdoe@pcc.edu" : str)) in H.
  inversion H. reflexivity.
Defined.

(** The domain ends with a space.  The line after the student line exists
    and contains the domain, its first token is ['jdoe@pcc.edu'], and the
    record's e-mail is empty: the test is made on the stripped line. *)
Lemma C9_counterexample :
  contains (email_domain C9_odd_settings) (nth 1 C9_odd_lines []) = true /\
  index (split_ws (nth 1 C9_odd_lines [])) 0 = Ok "jdoe@pcc.edu" /\
  tryExtract C9_odd_settings C9_odd_lines 0 (Some C9_context) =
    Ok (Some (MkRecord "Jane" "Doe" "G12345678" "" "" "GEO 170" "12345"), 2).
Proof.
  vm_compute. repeat split; reflexivity.
Qed.

(** ** Names *)

Lemma drop_while_app_all (p : ascii -> bool) (a b : str) :
  forallb p a = true -> drop_while p (a ++ b) = drop_while p b.
Proof.
  induction a as [|c a IH]; simpl; intros H; [reflexivity|].
  apply andb_true_iff in H as [-> H]. auto.
Qed.

Lemma take_while_app_all (p : ascii -> bool) (a b : str) :
  forallb p a = true -> take_while p (a ++ b) = a ++ take_while p b.
Proof.
  induction a as [|c a IH]; simpl; intros H; [reflexivity|].
  apply andb_true_iff in H as [-> H]. rewrite IH by assumption. reflexivity.
Qed.

Lemma drop_while_stop (p : ascii -> bool) (c : ascii) (s : str) :
  p c = false -> drop_while p (c :: s) = c :: s.
Proof. intros H. simpl. rewrite H. reflexivity. Qed.

Lemma take_while_stop (p : ascii -> bool) (c : ascii) (s : str) :
  p c = false -> take_while p (c :: s) = [].
Proof. intros H. simpl. rewrite H. reflexivity. Qed.

(** [s.split(None, 1)] on a text with a token, whitespace and more text. *)
Lemma split_ws1_two (ws0 tok ws1 rest : str) :
  forallb is_space ws0 = true ->
  tok <> [] -> forallb not_space tok = true ->
  ws1 <> [] -> forallb is_space ws1 = true ->
  (exists c, hd_error rest = Some c /\ is_space c = false) ->
  split_ws1 (ws0 ++ tok ++ ws1 ++ rest) = [tok; rest].
Proof.
  intros H0 Ht Htok Hw Hws1 (c & Hc & Hsp).
  destruct tok as [|t0 tok]; [congruence|].
  destruct ws1 as [|w0 ws1]; [congruence|].
  destruct rest as [|r0 rest]; [discriminate|]. simpl in Hc. inversion Hc; subst r0.
  assert (Ht0 : is_space t0 = false).
  { simpl in Htok. apply andb_true_iff in Htok as [Ht0 _].
    unfold not_space in Ht0. apply negb_true_iff in Ht0. exact Ht0. }
  assert (Hw0 : not_space w0 = false).
  { simpl in Hws1. apply andb_true_iff in Hws1 as [Hw0 _].
    unfold not_space. rewrite Hw0. reflexivity. }
  unfold split_ws1, lstrip. rewrite drop_while_app_all by assumption.
  change ((t0 :: tok) ++ (w0 :: ws1) ++ c :: rest)
    with (t0 :: (tok ++ (w0 :: ws1) ++ c :: rest)) at 1.
  rewrite (drop_while_stop is_space t0 _ Ht0).
  change (t0 :: tok ++ (w0 :: ws1) ++ c :: rest)
    with ((t0 :: tok) ++ w0 :: (ws1 ++ c :: rest)).
  rewrite take_while_app_all, drop_while_app_all by assumption.
  rewrite (take_while_stop not_space w0 _ Hw0).
  rewrite (drop_while_stop not_space w0 _ Hw0).
  change (w0 :: ws1 ++ c :: rest) with ((w0 :: ws1) ++ c :: rest).
  rewrite drop_while_app_all by assumption.
  rewrite (drop_while_stop is_space c _ Hsp), app_nil_r. reflexivity.
Qed.

Lemma index_split_0 (sep s : str) :
  index (split sep s) 0 = Ok (nth 0 (split sep s) []).
Proof.
  unfold split. pose proof (split_from_nonempty sep s 0) as H.
  destruct (split_from sep s 0); [contradiction | reflexivity].
Qed.

(** [names] when the region has a second token with a comma in it. *)
Lemma names_last_first (line gnum tok last mid tail : str) :
  split_ws1 (name_region line gnum) = [tok; last ++ "," ++ mid ++ tail] ->
  ~ In ","%char last -> ~ In ","%char mid ->
  tail = [] \/ hd_error tail = Some ","%char ->
  names line gnum = (strip last, strip mid).
Proof.
  intros Hs Hl Hm Ht. unfold names, split_name.
  rewrite index_split_0. simpl bind. fold (name_region line gnum). rewrite Hs.
  simpl index. simpl bind.
  change (last ++ "," ++ mid ++ tail) with (last ++ ","%char :: mid ++ tail).
  rewrite (split_char_app ","%char last (mid ++ tail) Hl).
  simpl index. simpl bind.
  destruct Ht as [-> | Ht].
  - rewrite app_nil_r, (split_char_none _ _ Hm). reflexivity.
  - destruct tail as [|c tail]; [discriminate|]. simpl in Ht. inversion Ht; subst c.
    rewrite (split_char_app ","%char mid tail Hm). reflexivity.
Qed.

Lemma names_one_token (line gnum : str) :
  length (split_ws1 (name_region line gnum)) < 2 -> names line gnum = ([], []).
Proof.
  intros H. unfold names, split_name.
  rewrite index_split_0. simpl bind. fold (name_region line gnum).
  destruct (split_ws1 (name_region line gnum)) as [|a [|b l]]; simpl in *;
    try reflexivity. lia.
Qed.

Lemma names_no_comma (line gnum tok rest : str) :
  split_ws1 (name_region line gnum) = [tok; rest] ->
  ~ In ","%char rest -> names line gnum = ([], []).
Proof.
  intros Hs Hr. unfold names, split_name.
  rewrite index_split_0. simpl bind. fold (name_region line gnum). rewrite Hs.
  simpl index. simpl bind. rewrite (split_char_none _ _ Hr). reflexivity.
Qed.

(** C4, as the code has it.  On a line where [re.search] finds a G-number,
    under an active context: the name region is the text before the first
    occurrence of the G-number; the row step builds its record with the pair
    [names] returns and can only fail in the e-mail step, never in the name
    extraction; when the region is whitespace, a token, whitespace and then a
    text with a comma, the last name is the stripped text before the first
    comma and the first name the stripped text between the first comma and
    the next one (or the end); when the region has no second token or the
    text after the first token has no comma, both names are empty. *)
Theorem C4_name_fields :
  forall (settings : Settings) (lines : list str) (idx : nat)
         (cur : ClassContext) (m : Match),
    re_search GNUM_RE (nth idx lines []) = Some m ->
    let line := nth idx lines [] in
    let gnum := group 1 m in
    let region := name_region line gnum in
    (exists post, line = region ++ gnum ++ post) /\
    (forall k, k < length region -> starts_with gnum (skipn k line) = false) /\
    tryExtract settings lines idx (Some cur) =
      (email <- email_of settings lines idx ;;
       Ok (Some (MkRecord (snd (names line gnum)) (fst (names line gnum)) gnum
                          email [] (class_label cur) (ctx_CRN cur)),
           idx + 2)) /\
    (forall ws0 tok ws1 last mid tail,
        region = ws0 ++ tok ++ ws1 ++ last ++ "," ++ mid ++ tail ->
        forallb is_space ws0 = true ->
        tok <> [] -> forallb not_space tok = true ->
        ws1 <> [] -> forallb is_space ws1 = true ->
        (forall c, hd_error last = Some c -> is_space c = false) ->
        ~ In ","%char last -> ~ In ","%char mid ->
        tail = [] \/ hd_error tail = Some ","%char ->
        names line gnum = (strip last, strip mid)) /\
    (length (split_ws1 region) < 2 -> names line gnum = ([], [])) /\
    (forall tok rest,
        split_ws1 region = [tok; rest] -> ~ In ","%char rest ->
        names line gnum = ([], [])).
Proof.
  intros settings lines idx cur m Hm line gnum region.
  destruct (gnum_search_occurs _ _ Hm) as [_ Hocc].
  split; [apply split_head_occurs; exact Hocc|].
  split; [apply split_head_first|].
  split; [apply tryExtract_active; exact Hm|].
  split; [|split; [apply names_one_token | apply names_no_comma]].
  intros ws0 tok ws1 last mid tail Hreg H0 Ht Htok Hw Hws1 Hhd Hl Hmid Htail.
  apply (names_last_first line gnum tok last mid tail); try assumption.
  fold region. rewrite Hreg. apply split_ws1_two; try assumption.
  destruct last as [|c last].
  - exists ","%char. split; reflexivity.
  - exists c. split; [reflexivity|]. apply Hhd. reflexivity.
Qed.

Lemma C4_witness :
  names (nth 0 C4_lines []) "G12345678" = ("Doe", "Jane").
Proof.
  change (names (nth 0 C4_lines []) "G12345678" = (strip "Doe", strip " Jane ")).
  destruct (re_search GNUM_RE (nth 0 C4_lines [])) as [m|] eqn:E;
    [|vm_compute in E; discriminate].
  destruct (C4_name_fields DEFAULT_SETTINGS C4_lines 0 C9_context m E)
    as (_ & _ & _ & H & _).
  assert (Hg : group 1 m = "G12345678").
  { vm_compute in E. inversion E. reflexivity. }
  rewrite Hg in H.
  apply (H "" "1" " " "Doe" " Jane " "").
  - vm_compute. reflexivity.
  - reflexivity.
  - discriminate.
  - vm_compute. reflexivity.
  - discriminate.
  - vm_compute. reflexivity.
  - intros c Hc. inversion Hc. vm_compute. reflexivity.
  - vm_compute. intuition discriminate.
  - vm_compute. intuition discriminate.
  - left. reflexivity.
Defined.

(** Two commas before the G-number: the first name is the text between
    them, not the text after the first one. *)
Lemma C4_counterexample :
  names "1 Doe, Jane, Jr G12345678" "G12345678" = ("Doe", "Jane") /\
  names_at_first_comma "1 Doe, Jane, Jr G12345678" "G12345678" =
    ("Doe", "Jane, Jr") /\
  names "1 Doe, Jane, Jr G12345678" "G12345678" <>
    names_at_first_comma "1 Doe, Jane, Jr G12345678" "G12345678".
Proof.
  vm_compute. repeat split; try reflexivity. discriminate.
Qed.

(** ** The two-page scenario *)

Lemma not_in_chars (x : ascii) (a : str) :
  forallb (fun c => negb (Ascii.eqb x c)) a = true -> ~ In x a.
Proof.
  induction a as [|c a IH]; simpl; intros H; [tauto|].
  apply andb_true_iff in H as [Hc H]. intros [->|Hin].
  - rewrite ascii_eqb_refl in Hc. discriminate.
  - apply IH; assumption.
Qed.

Lemma student_rows_record (fuel : nat) (settings : Settings)
      (cur : option ClassContext) (lines : list str) (idx idx' : nat)
      (recs : list StudentRecord) (r : StudentRecord) :
  idx < length lines ->
  tryExtract settings lines idx cur = Ok (Some r, idx') ->
  student_rows (S fuel) settings cur lines idx recs =
  student_rows fuel settings cur lines idx' (recs ++ [r]).
Proof.
  intros Hlt H. apply Nat.ltb_lt in Hlt. simpl. rewrite Hlt, H. reflexivity.
Qed.

Lemma student_rows_skip (fuel : nat) (settings : Settings)
      (cur : option ClassContext) (lines : list str) (idx idx' : nat)
      (recs : list StudentRecord) :
  idx < length lines ->
  tryExtract settings lines idx cur = Ok (None, idx') ->
  student_rows (S fuel) settings cur lines idx recs =
  student_rows fuel settings cur lines idx' recs.
Proof.
  intros Hlt H. apply Nat.ltb_lt in Hlt. simpl. rewrite Hlt, H. reflexivity.
Qed.

Lemma student_rows_end (fuel : nat) (settings : Settings)
      (cur : option ClassContext) (lines : list str) (idx : nat)
      (recs : list StudentRecord) :
  length lines <= idx ->
  student_rows (S fuel) settings cur lines idx recs = Ok recs.
Proof.
  intros Hge. apply Nat.ltb_ge in Hge. simpl. rewrite Hge. reflexivity.
Qed.

Lemma email_of_absent (settings : Settings) (lines : list str) (idx : nat) :
  contains (email_domain settings) (strip (nth (idx + 1) lines [])) = false ->
  email_of settings lines idx = Ok [].
Proof.
  intros H. unfold email_of. rewrite H.
  destruct (idx + 1 <? length lines); reflexivity.
Qed.

Lemma onHeader_accepted (settings : Settings) (cur : option ClassContext)
      (h : str) (m : Match) :
  re_match COURSE_RE h = Some m ->
  allows (allowed_courses settings) (group 3 m) ->
  onHeader settings cur h =
  Some (MkContext (group 1 m) (group 2 m) (group 3 m) (group 4 m)
                  (strip (group 5 m))).
Proof.
  intros Hm Ha. unfold onHeader. rewrite Hm.
  destruct (allowed_courses settings); [|reflexivity].
  cbv [allows] in Ha. rewrite Ha. reflexivity.
Qed.

Lemma C2_page2_lines (l : str) :
  ~ In (ascii_of_nat 10) l ->
  page_lines (C2_page2 l) =
  ["54321 GEO 221 2 Advanced Geo"; "2 Smith, John G87654321"; l].
Proof.
  intros Hl. unfold page_lines, C2_page2, page_text, NL.
  change ("54321 GEO 221 2 Advanced Geo" ++ [ascii_of_nat 10] ++
          "2 Smith, John G87654321" ++ [ascii_of_nat 10] ++ l)
    with ("54321 GEO 221 2 Advanced Geo" ++ ascii_of_nat 10 ::
          ("2 Smith, John G87654321" ++ ascii_of_nat 10 :: l)).
  rewrite split_char_app by (apply not_in_chars; vm_compute; reflexivity).
  rewrite split_char_app by (apply not_in_chars; vm_compute; reflexivity).
  rewrite split_char_none by assumption. reflexivity.
Qed.

Lemma solid_pcc : solid "@pcc.edu".
Proof.
  exists "@"%char. vm_compute. repeat split; reflexivity.
Qed.

(** C2, as the code has it.  The scenario holds for every third line of
    page 2 that, besides not containing the e-mail domain, does not match the
    header pattern, and for every allow-list that holds 170 and 221 or is
    disabled. *)
Theorem C2_two_page_scenario :
  forall (allowed : option (list str)) (l : str),
    allows allowed "170" -> allows allowed "221" ->
    ~ In (ascii_of_nat 10) l ->
    contains "@pcc.edu" l = false ->
    re_match COURSE_RE l = None ->
    walk (MkSettings allowed "@pcc.edu") [C2_page1; C2_page2 l] =
    Ok [C2_record1; C2_record2].
Proof.
  intros allowed l H170 H221 Hnl Hmail Hhdr.
  set (settings := MkSettings allowed "@pcc.edu").
  set (c1 := MkContext "12345" "GEO" "170" "1" "Intro to Geography").
  set (c2 := MkContext "54321" "GEO" "221" "2" "Advanced Geo").
  assert (P1 : walk_page settings (MkWalk None []) C2_page1 =
               Ok (MkWalk (Some c1) [C2_record1])).
  { unfold walk_page.
    change (split NL (page_text C2_page1))
      with ["12345 GEO 170 1 Intro to Geography"; "1 Doe, Jane G12345678";
            ("jdoe@pcc.edu" : str)].
    assert (Hc : header_pass settings None
                   ["12345 GEO 170 1 Intro to Geography"; "1 Doe, Jane G12345678";
                    ("jdoe@pcc.edu" : str)] = Some c1).
    { unfold header_pass. simpl fold_left.
      destruct (re_match COURSE_RE "12345 GEO 170 1 Intro to Geography")
        as [m|] eqn:E; [|vm_compute in E; discriminate].
      rewrite (onHeader_accepted settings None _ m E)
        by (vm_compute in E; inversion E; exact H170).
      rewrite !onHeader_other by (vm_compute; reflexivity).
      vm_compute in E. inversion E. vm_compute. reflexivity. }
    simpl current_class. rewrite Hc. vm_compute. reflexivity. }
  assert (P2 : walk_page settings (MkWalk (Some c1) [C2_record1]) (C2_page2 l) =
               Ok (MkWalk (Some c2) [C2_record1; C2_record2])).
  { unfold walk_page. fold (page_lines (C2_page2 l)).
    rewrite (C2_page2_lines l Hnl).
    assert (Hc : header_pass settings (Some c1)
                   ["54321 GEO 221 2 Advanced Geo"; "2 Smith, John G87654321"; l]
                 = Some c2).
    { unfold header_pass. simpl fold_left.
      destruct (re_match COURSE_RE "54321 GEO 221 2 Advanced Geo")
        as [m|] eqn:E; [|vm_compute in E; discriminate].
      rewrite (onHeader_accepted settings (Some c1) _ m E)
        by (vm_compute in E; inversion E; exact H221).
      rewrite (onHeader_other settings _ "2 Smith, John G87654321")
        by (vm_compute; reflexivity).
      rewrite (onHeader_other settings _ l Hhdr).
      vm_compute in E. inversion E. vm_compute. reflexivity. }
    simpl current_class. rewrite Hc. simpl records.
    simpl length.
    rewrite (student_rows_skip 3 settings (Some c2) _ 0 1)
      by (simpl; try lia; apply tryExtract_no_gnum; vm_compute; reflexivity).
    destruct (re_search GNUM_RE "2 Smith, John G87654321") as [m|] eqn:E;
      [|vm_compute in E; discriminate].
    rewrite (student_rows_record 2 settings (Some c2) _ 1 3 _ C2_record2).
    - rewrite student_rows_end by (simpl; lia). reflexivity.
    - simpl. lia.
    - rewrite (tryExtract_active settings
                 ["54321 GEO 221 2 Advanced Geo"; "2 Smith, John G87654321"; l]
                 1 c2 m E).
      rewrite email_of_absent.
      + vm_compute in E. inversion E. vm_compute. reflexivity.
      + simpl nth. simpl email_domain.
        rewrite (contains_strip "@pcc.edu" l solid_pcc). exact Hmail. }
  unfold walk. cbn [walk_pages]. rewrite P1. cbn [bind]. rewrite P2. reflexivity.
Qed.

Lemma C2_witness :
  walk DEFAULT_SETTINGS [C2_page1; C2_page2 "Withdrawn 09/30"] =
  Ok [C2_record1; C2_record2].
Proof.
  apply (C2_two_page_scenario (allowed_courses DEFAULT_SETTINGS) "Withdrawn 09/30").
  - vm_compute. reflexivity.
  - vm_compute. reflexivity.
  - apply not_in_chars. vm_compute. reflexivity.
  - vm_compute. reflexivity.
  - vm_compute. reflexivity.
Defined.

(** The third line of page 2 does not contain the e-mail domain and is the
    header of the next class: the second record carries that class. *)
Lemma C2_counterexample :
  contains "@pcc.edu" "54322 GEO 240 1 Maps" = false /\
  walk DEFAULT_SETTINGS [C2_page1; C2_page2 "54322 GEO 240 1 Maps"] =
    Ok [C2_record1;
        MkRecord "John" "Smith" "G87654321" "" "" "GEO 240" "54322"] /\
  walk DEFAULT_SETTINGS [C2_page1; C2_page2 "54322 GEO 240 1 Maps"] <>
    Ok [C2_record1; C2_record2].
Proof.
  vm_compute. repeat split; try reflexivity. discriminate.
Qed.

(** ** Term codes *)

Lemma digit_is_word (c : ascii) : is_digit c = true -> is_word c = true.
Proof. all_chars c. Qed.

Lemma digit_not_space (c : ascii) : is_digit c = true -> is_space c = false.
Proof. all_chars c. Qed.

Lemma quarter_is_digit (c : ascii) : in_range 49 52 c = true -> is_digit c = true.
Proof. all_chars c. Qed.

Lemma term_code_match_inv (pv : option ascii) (s : str) (m : Match) :
  match_at _TERM_CODE_RE pv s = Some m ->
  exists c post,
    s = c ++ post /\ is_term_code c /\ word_opt pv = false /\
    word_opt (hd_error post) = false /\ m = MkMatch c [(1, c)].
Proof.
  unfold match_at, _TERM_CODE_RE. intros H.
  do 6 (destruct s as [|? s]; [cbn in H; split_if H; discriminate H|]).
  cbn in H. split_if H.
  repeat rewrite consumed_cons in H by (simpl; lia).
  rewrite consumed_same in H. inversion H; subst m; clear H.
  apply Ascii.eqb_eq in E0, E1, E4. subst.
  exists ["2"; "0"; a1; a2; "0"; a4]%char, s.
  split; [reflexivity|]. split; [exists a1, a2, a4; auto|].
  unfold at_boundary in E, E6. simpl hd_error in E.
  change (word_opt (Some "2"%char)) with true in E.
  simpl word_opt in E6 at 1.
  rewrite (digit_is_word a4 (quarter_is_digit a4 E5)) in E6.
  destruct (word_opt pv); [discriminate|].
  destruct (word_opt (hd_error s)); [discriminate|]. auto.
Qed.

Lemma term_code_match_here (pv : option ascii) (c post : str) :
  is_term_code c -> word_opt pv = false -> word_opt (hd_error post) = false ->
  match_at _TERM_CODE_RE pv (c ++ post) = Some (MkMatch c [(1, c)]).
Proof.
  intros (y1 & y2 & q & -> & H1 & H2 & Hq) Hpv Hpost.
  unfold match_at, _TERM_CODE_RE. cbn.
  unfold at_boundary. simpl hd_error. simpl word_opt at 2 3.
  change (is_word "2"%char) with true.
  rewrite Hpv, Hpost, (digit_is_word q (quarter_is_digit q Hq)), H1, H2, Hq.
  change (Ascii.eqb "2"%char "2"%char) with true.
  change (Ascii.eqb "0"%char "0"%char) with true.
  cbn.
  repeat rewrite consumed_cons by (simpl; lia).
  rewrite consumed_same. reflexivity.
Qed.

(** The first element of [finditer] is what [search] returns. *)
Lemma finditer_from_search (r : regex) (s : str) :
  forall pv,
    match search_from r pv s with
    | Some m => exists tl, finditer_from r pv s 0 = m :: tl
    | None => finditer_from r pv s 0 = []
    end.
Proof.
  induction s as [|c s IH]; intros pv; simpl.
  - destruct (match_at r pv []); [eexists|]; reflexivity.
  - destruct (match_at r pv (c :: s)); [eexists; reflexivity|].
    apply IH.
Qed.

Lemma strip_solid (s : str) (x y : ascii) (t : str) :
  s = x :: t -> is_space x = false -> is_space (last s y) = false -> strip s = s.
Proof.
  intros -> Hx Hl. unfold strip, lstrip.
  rewrite (drop_while_stop is_space x t Hx).
  destruct (rev (x :: t)) as [|z u] eqn:E.
  - apply (f_equal (@length ascii)) in E. rewrite length_rev in E. discriminate.
  - assert (Hz : z = last (x :: t) y).
    { rewrite <- (rev_involutive (x :: t)), E. simpl rev.
      rewrite last_last. reflexivity. }
    unfold rstrip. rewrite E, drop_while_stop by (rewrite Hz; exact Hl).
    rewrite <- E. apply rev_involutive.
Qed.

(** The label of a term code. *)
Lemma term_from_code_label (y1 y2 q : ascii) :
  is_digit y2 = true -> in_range 49 52 q = true ->
  _term_from_code ["2"; "0"; y1; y2; "0"; q]%char =
  Ok (season_map (code q - 48) ++ " " ++ ["2"; "0"; y1; y2]%char) /\
  In (season_map (code q - 48)) ["Winter"; "Spring"; "Summer"; "Fall"].
Proof.
  intros H2 Hq. unfold _term_from_code, last_char. simpl rev. simpl bind.
  unfold int_of_char. rewrite (quarter_is_digit q Hq). simpl bind.
  simpl firstn.
  assert (Hs : In (season_map (code q - 48)) ["Winter"; "Spring"; "Summer"; "Fall"]).
  { clear -Hq. destruct q as [[] [] [] [] [] [] [] []]; vm_compute in Hq;
      try discriminate Hq; vm_compute; auto. }
  split; [|exact Hs]. f_equal.
  pose proof (digit_not_space y2 H2) as Hy.
  simpl in Hs.
  destruct Hs as [<- | [<- | [<- | [<- | []]]]];
    (eapply (strip_solid _ _ "x"%char); [reflexivity | reflexivity | exact Hy]).
Qed.

(** ** Term phrases *)

Lemma run_word_i_ok (w : str) :
  forall (A : Type) (w' s' : str) (pv : option ascii) (g : list (nat * str))
         (k : mstate -> option A),
    map to_lower w' = map to_lower w ->
    run (word_i w) (MState pv (w' ++ s') g) k = k (MState (prev_of pv w') s' g).
Proof.
  induction w as [|x w IH]; intros A w' s' pv g k H; destruct w' as [|c w'];
    try discriminate H.
  - reflexivity.
  - simpl in H. inversion H as [[Hc Hw]].
    unfold word_i, seq in *. simpl map. simpl fold_right. unfold LitI at 1.
    simpl run. rewrite Hc, ascii_eqb_refl. simpl prev_of. apply IH. assumption.
Qed.

Lemma run_word_i_inv (w : str) :
  forall (A : Type) (st : mstate) (k : mstate -> option A) (a : A),
    run (word_i w) st k = Some a ->
    exists w' s',
      rest st = w' ++ s' /\ map to_lower w' = map to_lower w /\
      k (MState (prev_of (prev st) w') s' (caps st)) = Some a.
Proof.
  induction w as [|x w IH]; intros A st k a H.
  - exists [], (rest st). destruct st. auto.
  - unfold word_i, seq in *. simpl map in H. simpl fold_right in H.
    unfold LitI at 1 in H. simpl run in H.
    destruct (rest st) as [|c s] eqn:Er; [discriminate|].
    destruct (Ascii.eqb (to_lower c) (to_lower x)) eqn:Ec; [|discriminate].
    apply Ascii.eqb_eq in Ec.
    apply IH in H as (w' & s' & Hr & Hw & Hk). simpl in Hr, Hk. subst s.
    exists (c :: w'), s'. simpl. rewrite Ec, Hw. auto.
Qed.

Lemma star_run_inv (A : Type) (p : ascii -> bool)
      (k : option ascii -> str -> option A) (s : str) :
  forall pv a,
    star_run p k pv s = Some a ->
    exists ws rest,
      s = ws ++ rest /\ forallb p ws = true /\ k (prev_of pv ws) rest = Some a.
Proof.
  induction s as [|c s IH]; intros pv a H; simpl in H.
  - exists [], []. auto.
  - destruct (p c) eqn:Ep.
    + destruct (star_run p k (Some c) s) as [a'|] eqn:E.
      * inversion H; subst a'. apply IH in E as (ws & rest & -> & Hws & Hk).
        exists (c :: ws), rest. simpl. rewrite Ep. auto.
      * exists [], (c :: s). auto.
    + exists [], (c :: s). auto.
Qed.

(** A greedy repetition that succeeds after the longest run. *)
Lemma star_run_longest (A : Type) (p : ascii -> bool)
      (k : option ascii -> str -> option A) (ws rest : str) :
  forall pv a,
    forallb p ws = true ->
    (forall c, hd_error rest = Some c -> p c = false) ->
    k (prev_of pv ws) rest = Some a ->
    star_run p k pv (ws ++ rest) = Some a.
Proof.
  induction ws as [|c ws IH]; intros pv a Hws Hrest Hk.
  - simpl in *. destruct rest as [|c rest]; simpl; [exact Hk|].
    rewrite (Hrest c eq_refl). exact Hk.
  - simpl in Hws. apply andb_true_iff in Hws as [Hc Hws].
    simpl. rewrite Hc. rewrite (IH (Some c) a Hws Hrest Hk). reflexivity.
Qed.

Lemma lower_letter_is_word (c x : ascii) :
  to_lower c = x -> is_lower_az x = true -> is_word c = true.
Proof. intros <-. all_chars c. Qed.

Lemma season_hd_word (w : str) :
  is_season_ci w -> exists c t, w = c :: t /\ is_word c = true.
Proof.
  unfold is_season_ci. intros H. destruct w as [|c t]; simpl in H.
  - destruct H as [H | [H | [H | [H | []]]]]; discriminate H.
  - exists c, t. split; [reflexivity|].
    destruct H as [H | [H | [H | [H | []]]]]; inversion H as [[Hc Ht]];
      apply (lower_letter_is_word c _ (eq_sym Hc)); reflexivity.
Qed.

Lemma term_text_match_inv (pv : option ascii) (s : str) (m : Match) :
  match_at _TERM_TEXT_RE pv s = Some m ->
  exists w ws y post,
    s = w ++ ws ++ y ++ post /\ is_season_ci w /\ ws <> [] /\
    forallb is_space ws = true /\ is_year20 y /\ word_opt pv = false /\
    word_opt (hd_error post) = false /\
    m = MkMatch (w ++ ws ++ y) [(2, y); (1, w)].
Proof.
  unfold match_at, _TERM_TEXT_RE, seq, Plus, Lit.
  cbn [fold_right run prev rest caps].
  intros H.
  destruct (at_boundary pv s) eqn:B; [|discriminate].
  match type of H with
  | context [run (word_i "Spring") ?st ?K] => set (K0 := K) in H; set (st0 := st) in H
  end.
  assert (HW : exists w, In (map to_lower w) ["spring"; "summer"; "fall"; "winter"] /\
                         run (word_i w) st0 K0 = Some m).
  { destruct (run (word_i "Spring") st0 K0) eqn:E1.
    { inversion H; subst. exists "Spring". split; [vm_compute; auto | exact E1]. }
    destruct (run (word_i "Summer") st0 K0) eqn:E2.
    { inversion H; subst. exists "Summer". split; [vm_compute; auto | exact E2]. }
    destruct (run (word_i "Fall") st0 K0) eqn:E3.
    { inversion H; subst. exists "Fall". split; [vm_compute; auto | exact E3]. }
    exists "Winter". split; [vm_compute; auto 6 | exact H]. }
  clear H. destruct HW as (w0 & Hw0 & H).
  apply run_word_i_inv in H as (w & s1 & Hs & Hw & H).
  subst st0. simpl in Hs, H. unfold K0 in H. clear K0. cbn [rest prev caps] in H.
  destruct s1 as [|c s2]; [discriminate|].
  destruct (is_space c) eqn:Ec; [|discriminate].
  apply star_run_inv in H as (ws & r & Hs2 & Hws & H).
  do 4 (destruct r as [|? r]; [split_if H; discriminate H|]).
  split_if H. inversion H; subst m; clear H.
  apply Ascii.eqb_eq in E, E0. subst a a0.
  assert (Hseason : is_season_ci w) by (unfold is_season_ci; rewrite Hw; exact Hw0).
  exists w, (c :: ws), ["2"; "0"; a1; a2]%char, r.
  subst s s2.
  assert (Hpv : word_opt pv = false).
  { destruct (season_hd_word w Hseason) as (c0 & t & -> & Hc0).
    unfold at_boundary in B. simpl in B. rewrite Hc0 in B.
    destruct (word_opt pv); [discriminate | reflexivity]. }
  assert (Hpost : word_opt (hd_error r) = false).
  { unfold at_boundary in E3. simpl word_opt in E3 at 1.
    rewrite (digit_is_word a2 E2) in E3.
    destruct (word_opt (hd_error r)); [discriminate | reflexivity]. }
  repeat split; try assumption.
  - discriminate.
  - simpl. rewrite Ec. exact Hws.
  - exists a1, a2. auto.
  - f_equal.
    + replace (w ++ c :: ws ++ "2"%char :: "0"%char :: a1 :: a2 :: r)
        with ((w ++ (c :: ws) ++ ["2"; "0"; a1; a2]%char) ++ r)
        by (rewrite <- !app_assoc; reflexivity).
      apply consumed_app.
    + f_equal.
      * f_equal. repeat rewrite consumed_cons by (simpl; lia).
        rewrite consumed_same. reflexivity.
      * f_equal. f_equal. apply consumed_app.
Qed.

(** An alternative whose word differs from the text at some position fails. *)
Lemma run_word_i_none (A : Type) (w : str) (st : mstate)
      (k : mstate -> option A) (n : nat) (x y : ascii) :
  nth_error (map to_lower w) n = Some x ->
  nth_error (map to_lower (rest st)) n = Some y ->
  x <> y ->
  run (word_i w) st k = None.
Proof.
  intros Hx Hy Hxy. destruct (run (word_i w) st k) as [a|] eqn:E; [|reflexivity].
  apply run_word_i_inv in E as (w' & s' & Hr & Hw & _).
  rewrite Hr, map_app, Hw in Hy.
  rewrite nth_error_app1 in Hy by (apply nth_error_Some; congruence).
  congruence.
Qed.

Lemma term_text_match_here (pv : option ascii) (w ws y post : str) :
  is_season_ci w -> ws <> [] -> forallb is_space ws = true -> is_year20 y ->
  word_opt pv = false -> word_opt (hd_error post) = false ->
  match_at _TERM_TEXT_RE pv (w ++ ws ++ y ++ post) =
  Some (MkMatch (w ++ ws ++ y) [(2, y); (1, w)]).
Proof.
  intros Hseason Hne Hws (d1 & d2 & -> & Hd1 & Hd2) Hpv Hpost.
  destruct ws as [|c ws]; [congruence|]. simpl in Hws.
  apply andb_true_iff in Hws as [Hc Hws].
  unfold match_at, _TERM_TEXT_RE, seq, Plus, Lit.
  cbn [fold_right run prev rest caps].
  assert (B : at_boundary pv (w ++ (c :: ws) ++ ["2"; "0"; d1; d2]%char ++ post) = true).
  { destruct (season_hd_word w Hseason) as (c0 & t & -> & Hc0).
    unfold at_boundary. simpl. rewrite Hpv, Hc0. reflexivity. }
  rewrite B.
  match goal with
  | |- context [run (word_i "Spring") ?st ?K] => set (K0 := K); set (st0 := st)
  end.
  assert (HK : K0 (MState (prev_of pv w)
                          ((c :: ws) ++ ["2"; "0"; d1; d2]%char ++ post) []) =
               Some (MkMatch (w ++ (c :: ws) ++ ["2"; "0"; d1; d2]%char)
                             [(2, ["2"; "0"; d1; d2]%char); (1, w)])).
  { unfold K0. cbn [rest prev caps app]. rewrite Hc.
    apply star_run_longest; [exact Hws | |].
    - intros x Hx. simpl in Hx. inversion Hx. reflexivity.
    - change (Ascii.eqb "2"%char "2"%char) with true.
      change (Ascii.eqb "0"%char "0"%char) with true.
      cbn iota. rewrite Hd1, Hd2.
      unfold at_boundary. simpl word_opt at 1.
      rewrite (digit_is_word d2 Hd2), Hpost. cbn [xorb].
      f_equal. f_equal.
      + replace (w ++ c :: ws ++ "2"%char :: "0"%char :: d1 :: d2 :: post)
          with ((w ++ (c :: ws) ++ ["2"; "0"; d1; d2]%char) ++ post)
          by (rewrite <- !app_assoc; reflexivity).
        apply consumed_app.
      + f_equal.
        * f_equal. repeat rewrite consumed_cons by (simpl; lia).
          rewrite consumed_same. reflexivity.
        * f_equal. f_equal.
          apply (consumed_app w (c :: ws ++ "2"%char :: "0"%char :: d1 :: d2 :: post)). }
  assert (Hlow : forall n,
             nth_error (map to_lower (rest st0)) n =
             nth_error (map to_lower w ++
                        map to_lower ((c :: ws) ++ ["2"; "0"; d1; d2]%char ++ post)) n).
  { intros n. unfold st0. simpl rest. rewrite map_app. reflexivity. }
  unfold is_season_ci in Hseason. simpl in Hseason.
  destruct Hseason as [Hw | [Hw | [Hw | [Hw | []]]]].
  - unfold st0. rewrite (run_word_i_ok "Spring")
      by (rewrite <- Hw; vm_compute; reflexivity).
    rewrite HK. reflexivity.
  - rewrite (run_word_i_none Match "Spring" st0 K0 1 "p"%char "u"%char)
      by (try (rewrite Hlow, <- Hw); try reflexivity; discriminate).
    unfold st0. rewrite (run_word_i_ok "Summer")
      by (rewrite <- Hw; vm_compute; reflexivity).
    rewrite HK. reflexivity.
  - rewrite (run_word_i_none Match "Spring" st0 K0 0 "s"%char "f"%char)
      by (try (rewrite Hlow, <- Hw); try reflexivity; discriminate).
    rewrite (run_word_i_none Match "Summer" st0 K0 0 "s"%char "f"%char)
      by (try (rewrite Hlow, <- Hw); try reflexivity; discriminate).
    unfold st0. rewrite (run_word_i_ok "Fall")
      by (rewrite <- Hw; vm_compute; reflexivity).
    rewrite HK. reflexivity.
  - rewrite (run_word_i_none Match "Spring" st0 K0 0 "s"%char "w"%char)
      by (try (rewrite Hlow, <- Hw); try reflexivity; discriminate).
    rewrite (run_word_i_none Match "Summer" st0 K0 0 "s"%char "w"%char)
      by (try (rewrite Hlow, <- Hw); try reflexivity; discriminate).
    rewrite (run_word_i_none Match "Fall" st0 K0 0 "f"%char "w"%char)
      by (try (rewrite Hlow, <- Hw); try reflexivity; discriminate).
    unfold st0. rewrite (run_word_i_ok "Winter")
      by (rewrite <- Hw; vm_compute; reflexivity).
    rewrite HK. reflexivity.
Qed.

(** ** Title case of a season name *)

Lemma cased_of_lower (c : ascii) :
  is_lower_az (to_lower c) = true -> is_cased c = true.
Proof. all_chars c. Qed.

Lemma upper_of_lower (c : ascii) :
  is_lower_az (to_lower c) = true -> to_upper c = to_upper (to_lower c).
Proof. all_chars c. Qed.

Lemma title_from_cased (s : str) :
  forallb is_lower_az (map to_lower s) = true ->
  title_from true s = map to_lower s.
Proof.
  induction s as [|c s IH]; simpl; intros H; [reflexivity|].
  apply andb_true_iff in H as [Hc H].
  rewrite (cased_of_lower c Hc), IH by assumption. reflexivity.
Qed.

Lemma title_of_letters (w : str) (x : ascii) (t : str) :
  map to_lower w = x :: t -> forallb is_lower_az (x :: t) = true ->
  title w = to_upper x :: t.
Proof.
  intros Hw Hl. destruct w as [|c w]; [discriminate|].
  simpl in Hw. inversion Hw as [[Hc Ht]]. rewrite <- Hc, <- Ht in Hl.
  simpl in Hl. apply andb_true_iff in Hl as [Hlc Hlw].
  unfold title. simpl.
  rewrite (upper_of_lower c Hlc), (cased_of_lower c Hlc), title_from_cased
    by assumption.
  reflexivity.
Qed.

Lemma title_season (w : str) :
  is_season_ci w -> In (title w) ["Spring"; "Summer"; "Fall"; "Winter"].
Proof.
  unfold is_season_ci. simpl.
  intros [H | [H | [H | [H | []]]]];
    rewrite (title_of_letters w _ _ (eq_sym H) eq_refl); vm_compute; auto.
Qed.

(** ** Detection *)

Lemma no_phrase_iff (header : str) :
  re_search _TERM_TEXT_RE header = None <->
  forall pre w ws y post, ~ phrase_at header pre w ws y post.
Proof.
  split.
  - intros H pre w ws y post (Hh & Hs & Hne & Hws & Hy & Hpv & Hpost).
    pose proof (search_from_none _ _ _ H pre (w ++ ws ++ y ++ post) Hh) as Hn.
    rewrite term_text_match_here in Hn by assumption. discriminate.
  - intros H. apply search_from_absent. intros a b Hab.
    destruct (match_at _TERM_TEXT_RE (prev_of None a) b) as [m|] eqn:E;
      [|reflexivity].
    apply term_text_match_inv in E
      as (w & ws & y & post & -> & Hs & Hne & Hws & Hy & Hpv & Hpost & _).
    exfalso. apply (H a w ws y post). repeat split; assumption.
Qed.

Lemma no_code_iff (header : str) :
  re_search _TERM_CODE_RE header = None <->
  forall pre c post, ~ code_at header pre c post.
Proof.
  split.
  - intros H pre c post (Hh & Hc & Hpv & Hpost).
    pose proof (search_from_none _ _ _ H pre (c ++ post) Hh) as Hn.
    rewrite term_code_match_here in Hn by assumption. discriminate.
  - intros H. apply search_from_absent. intros a b Hab.
    destruct (match_at _TERM_CODE_RE (prev_of None a) b) as [m|] eqn:E;
      [|reflexivity].
    apply term_code_match_inv in E as (c & post & -> & Hc & Hpv & Hpost & _).
    exfalso. apply (H a c post). repeat split; assumption.
Qed.

(** C8, as the code has it.  The phrase that the detector looks for first
    is a season name in any case, whitespace, and a year made of 20 and two
    digits, between word boundaries.  When the first page holds such a phrase,
    the detector returns the label of a phrase that starts no later, the
    season in title case and the year, and the label of the given phrase when
    none starts before it. *)
Theorem C8_term_phrase :
  forall (header pre w ws y post : str),
    phrase_at header pre w ws y post ->
    In (title w) ["Spring"; "Summer"; "Fall"; "Winter"] /\
    ((forall pre' w' ws' y' post',
         phrase_at header pre' w' ws' y' post' -> length pre <= length pre') ->
     detect header = Ok (title w ++ " " ++ y)) /\
    (exists pre0 w0 ws0 y0 post0,
        phrase_at header pre0 w0 ws0 y0 post0 /\ length pre0 <= length pre /\
        detect header = Ok (title w0 ++ " " ++ y0)).
Proof.
  intros header pre w ws y post (Hh & Hs & Hne & Hws & Hy & Hpv & Hpost).
  pose proof (term_text_match_here (prev_of None pre) w ws y post
                Hs Hne Hws Hy Hpv Hpost) as Hhere.
  split; [apply title_season; exact Hs|]. split.
  - intros Hmin. unfold detect, re_search. rewrite Hh.
    rewrite (search_from_leftmost _TERM_TEXT_RE pre (w ++ ws ++ y ++ post) None
               _ Hhere).
    + reflexivity.
    + intros a' b' Hab Hlen.
      destruct (match_at _TERM_TEXT_RE (prev_of None a') b') as [m|] eqn:E;
        [|reflexivity].
      apply term_text_match_inv in E
        as (w' & ws' & y' & post' & -> & Hs' & Hne' & Hws' & Hy' & Hpv' & Hpost' & _).
      assert (Hp : phrase_at header a' w' ws' y' post')
        by (rewrite Hh; repeat split; assumption).
      apply Hmin in Hp. lia.
  - destruct (re_search _TERM_TEXT_RE header) as [m|] eqn:E.
    + pose proof E as E0. unfold re_search in E.
      apply search_from_some in E as (a & b & Hab & Hm & Hleft).
      apply term_text_match_inv in Hm
        as (w0 & ws0 & y0 & post0 & -> & Hs0 & Hne0 & Hws0 & Hy0 & Hpv0 & Hpost0 & ->).
      exists a, w0, ws0, y0, post0. split; [repeat split; assumption|]. split.
      * destruct (Nat.le_gt_cases (length a) (length pre)) as [Hle|Hgt];
          [exact Hle|].
        rewrite (Hleft pre (w ++ ws ++ y ++ post)) in Hhere
          by (congruence || assumption).
        discriminate.
      * unfold detect. rewrite E0. reflexivity.
    + exfalso. rewrite no_phrase_iff in E. apply (E pre w ws y post).
      repeat split; assumption.
Qed.

(** The first page reads ['Fall 2025']. *)
Lemma C8_witness : detect "Fall 2025" = Ok "Fall 2025".
Proof.
  assert (P : phrase_at "Fall 2025" "" "Fall" " " "2025" "").
  { repeat split; try reflexivity.
    - unfold is_season_ci. vm_compute. auto.
    - discriminate.
    - exists "2"%char, "5"%char. repeat split; reflexivity. }
  destruct (C8_term_phrase "Fall 2025" "" "Fall" " " "2025" "" P) as (_ & H & _).
  apply H. intros. simpl. lia.
Defined.

(** A season and a four-digit year that does not start with 20. *)
Lemma C8_counterexample :
  detect "Fall 1999" = Ok "" /\ detect "Fall 1999" <> Ok "Fall 1999".
Proof.
  vm_compute. split; [reflexivity | discriminate].
Qed.

(** C7, as the code has it.  When the first page holds no season-and-year
    phrase, the detector looks for term codes: 20, two digits, 0 and a digit
    from 1 to 4, between word boundaries.  It returns the label of the first
    one, the season of the last digit (1 Winter, 2 Spring, 3 Summer, 4 Fall)
    and the first four digits, and the empty string when there is none. *)
Theorem C7_term_code :
  forall (header : str),
    (forall pre w ws y post, ~ phrase_at header pre w ws y post) ->
    (forall pre c post,
        code_at header pre c post ->
        (forall pre' c' post',
            code_at header pre' c' post' -> length pre <= length pre') ->
        exists y1 y2 q,
          c = ["2"; "0"; y1; y2; "0"; q]%char /\
          detect header =
            Ok (season_map (code q - 48) ++ " " ++ ["2"; "0"; y1; y2]%char) /\
          In (season_map (code q - 48)) ["Winter"; "Spring"; "Summer"; "Fall"]) /\
    ((forall pre c post, ~ code_at header pre c post) -> detect header = Ok []) /\
    season_map 1 = "Winter" /\ season_map 2 = "Spring" /\
    season_map 3 = "Summer" /\ season_map 4 = "Fall".
Proof.
  intros header Hno. apply no_phrase_iff in Hno.
  split; [|split; [|repeat split; reflexivity]].
  - intros pre c post (Hh & Hc & Hpv & Hpost) Hmin.
    pose proof (term_code_match_here (prev_of None pre) c post Hc Hpv Hpost)
      as Hhere.
    assert (Hs : search_from _TERM_CODE_RE None header = Some (MkMatch c [(1, c)])).
    { rewrite Hh. apply search_from_leftmost; [exact Hhere|].
      intros a' b' Hab Hlen.
      destruct (match_at _TERM_CODE_RE (prev_of None a') b') as [m|] eqn:E;
        [|reflexivity].
      apply term_code_match_inv in E as (c' & post' & -> & Hc' & Hpv' & Hpost' & _).
      assert (Hp : code_at header a' c' post')
        by (rewrite Hh; repeat split; assumption).
      apply Hmin in Hp. lia. }
    pose proof (finditer_from_search _TERM_CODE_RE header None) as Hf.
    rewrite Hs in Hf. destruct Hf as [tl Hf].
    destruct Hc as (y1 & y2 & q & -> & H1 & H2 & Hq).
    exists y1, y2, q. split; [reflexivity|].
    destruct (term_from_code_label y1 y2 q H2 Hq) as [Hlabel Hseason].
    split; [|exact Hseason].
    unfold detect. rewrite Hno. unfold finditer. rewrite Hf.
    simpl first_guess. simpl group. rewrite Hlabel. simpl bind.
    simpl in Hseason.
    destruct Hseason as [<- | [<- | [<- | [<- | []]]]]; reflexivity.
  - intros Hnone. apply no_code_iff in Hnone.
    pose proof (finditer_from_search _TERM_CODE_RE header None) as Hf.
    unfold re_search in Hnone. rewrite Hnone in Hf.
    unfold detect. rewrite Hno. unfold finditer. rewrite Hf. reflexivity.
Qed.

(** The first page reads ['202503']. *)
Lemma C7_witness : detect "202503" = Ok "Summer 2025".
Proof.
  assert (Hno : forall pre w ws y post, ~ phrase_at "202503" pre w ws y post).
  { apply no_phrase_iff. vm_compute. reflexivity. }
  destruct (C7_term_code "202503" Hno) as (H & _).
  destruct (H "" "202503" "") as (y1 & y2 & q & Hc & Hd & _).
  - repeat split; try reflexivity.
    exists "2"%char, "5"%char, "3"%char. repeat split; reflexivity.
  - intros. simpl. lia.
  - inversion Hc; subst. exact Hd.
Defined.

(** ['202511'] is six digits starting with 20 and ending in 1, the digit of
    Winter, and the page has no season phrase: the detector returns the
    empty string, since the fifth digit is not 0. *)
Lemma C7_counterexample :
  (forall pre w ws y post, ~ phrase_at "202511" pre w ws y post) /\
  length ("202511" : str) = 6 /\ forallb is_digit "202511" = true /\
  starts_with "20" "202511" = true /\
  _term_from_code "202511" = Ok "Winter 2025" /\
  detect "202511" = Ok "" /\ detect "202511" <> Ok "Winter 2025".
Proof.
  split; [apply no_phrase_iff; vm_compute; reflexivity|].
  vm_compute. repeat split; try reflexivity. discriminate.
Qed.

(** ** File names *)

Lemma take_drop_while (p : ascii -> bool) (s : str) :
  take_while p s ++ drop_while p s = s.
Proof.
  induction s as [|c s IH]; simpl; [reflexivity|].
  destruct (p c); simpl; [rewrite IH|]; reflexivity.
Qed.

Lemma star_run_total (A : Type) (p : ascii -> bool)
      (k : option ascii -> str -> option A) (s : str) :
  (forall pv t, k pv t <> None) ->
  forall pv, star_run p k pv s =
             k (prev_of pv (take_while p s)) (drop_while p s).
Proof.
  intros Hk. induction s as [|c s IH]; intros pv; simpl; [reflexivity|].
  destruct (p c); [|reflexivity].
  rewrite IH. simpl.
  destruct (k (prev_of (Some c) (take_while p s)) (drop_while p s)) eqn:E;
    [reflexivity|]. exfalso. exact (Hk _ _ E).
Qed.

Lemma spaces_match_at (pv : option ascii) (c : ascii) (s : str) :
  match_at SPACES_RE pv (c :: s) =
  if is_space c then Some (MkMatch (c :: take_while is_space s) []) else None.
Proof.
  unfold match_at, SPACES_RE, Plus. cbn [run rest prev caps].
  destruct (is_space c); [|reflexivity].
  rewrite star_run_total by discriminate.
  f_equal. f_equal.
  rewrite <- (take_drop_while is_space s) at 1.
  apply (consumed_app (c :: take_while is_space s)).
Qed.

Lemma spaces_sub_collapse (s : str) :
  (forall pv, sub_from SPACES_RE " " pv s 0 = collapse_from false s) /\
  (forall pv, sub_from SPACES_RE " " pv s (length (take_while is_space s)) =
              collapse_from true s).
Proof.
  induction s as [|c s [IH0 IH1]].
  - split; intros pv; reflexivity.
  - assert (H0 : forall pv, sub_from SPACES_RE " " pv (c :: s) 0 =
                            collapse_from false (c :: s)).
    { intros pv. cbn [sub_from]. rewrite spaces_match_at. cbn [collapse_from].
      destruct (is_space c).
      - cbn [whole length]. rewrite IH1. reflexivity.
      - rewrite IH0. reflexivity. }
    split; [exact H0|].
    intros pv. cbn [take_while collapse_from]. destruct (is_space c) eqn:E.
    + cbn [length sub_from]. apply IH1.
    + cbn [length]. rewrite H0. cbn [collapse_from]. rewrite E. reflexivity.
Qed.

Lemma unsafe_sub_filter (s : str) :
  forall pv, sub_from UNSAFE_RE "" pv s 0 = filter is_safe_char s.
Proof.
  induction s as [|c s IH]; intros pv; [reflexivity|].
  cbn [sub_from filter]. unfold match_at, UNSAFE_RE. cbn [run rest prev caps].
  destruct (is_safe_char c); cbn [negb].
  - rewrite IH. reflexivity.
  - rewrite consumed_cons, consumed_same by lia. cbn [whole length app].
    apply IH.
Qed.

(** [_safe_filename] in terms of the list functions. *)
Lemma safe_filename_eq (s : option str) :
  _safe_filename s =
  strip (collapse_from false (filter is_safe_char (strip (or_empty s)))).
Proof.
  unfold _safe_filename, re_sub.
  rewrite unsafe_sub_filter. rewrite (proj1 (spaces_sub_collapse _)). reflexivity.
Qed.

Lemma tidy_collapse (s : str) :
  forall b, tidy_from b (collapse_from b s) = true.
Proof.
  induction s as [|c s IH]; intros b; simpl; [reflexivity|].
  destruct (is_space c) eqn:E.
  - destruct b; [apply IH|]. cbn [tidy_from].
    change (is_space " "%char) with true.
    change (Ascii.eqb " "%char " "%char) with true.
    cbn [negb andb]. apply IH.
  - simpl. rewrite E. apply IH.
Qed.

Lemma collapse_tidy (s : str) :
  forall b, tidy_from b s = true -> collapse_from b s = s.
Proof.
  induction s as [|c s IH]; intros b H; simpl in *; [reflexivity|].
  destruct (is_space c).
  - apply andb_true_iff in H as [H Ht]. apply andb_true_iff in H as [Hb Hc].
    apply negb_true_iff in Hb. apply Ascii.eqb_eq in Hc. subst b c.
    rewrite IH by assumption. reflexivity.
  - rewrite IH by assumption. reflexivity.
Qed.

Lemma tidy_drop_spaces (s : str) :
  forall b, tidy_from b s = true ->
            tidy_from false (drop_while is_space s) = true.
Proof.
  induction s as [|c s IH]; intros b H; simpl in *; [reflexivity|].
  destruct (is_space c) eqn:E.
  - apply andb_true_iff in H as [_ Ht]. apply (IH true). exact Ht.
  - simpl. rewrite E. exact H.
Qed.

Lemma tidy_prefix (s t : str) :
  forall b, tidy_from b (s ++ t) = true -> tidy_from b s = true.
Proof.
  induction s as [|c s IH]; intros b H; simpl in *; [reflexivity|].
  destruct (is_space c).
  - apply andb_true_iff in H as [H Ht]. rewrite H. simpl. apply IH. exact Ht.
  - apply IH. exact H.
Qed.

Lemma rstrip_prefix (s : str) : exists t, s = rstrip s ++ t.
Proof.
  induction s as [|c s IH] using rev_ind.
  - exists []. reflexivity.
  - rewrite rstrip_snoc. destruct (is_space c).
    + destruct IH as [t Ht]. exists (t ++ [c]). rewrite app_assoc, <- Ht.
      reflexivity.
    + exists []. rewrite app_nil_r. reflexivity.
Qed.

Lemma tidy_strip (s : str) :
  tidy_from false s = true -> tidy_from false (strip s) = true.
Proof.
  intros H. unfold strip, lstrip.
  apply tidy_drop_spaces in H.
  destruct (rstrip_prefix (drop_while is_space s)) as [t Ht].
  rewrite Ht in H. apply tidy_prefix in H. exact H.
Qed.

Lemma forallb_drop_while (p q : ascii -> bool) (s : str) :
  forallb p s = true -> forallb p (drop_while q s) = true.
Proof.
  induction s as [|c s IH]; simpl; intros H; [reflexivity|].
  apply andb_true_iff in H as [Hc H].
  destruct (q c); [auto|]. simpl. rewrite Hc, H. reflexivity.
Qed.

Lemma safe_strip (s : str) :
  forallb is_safe_char s = true -> forallb is_safe_char (strip s) = true.
Proof.
  intros H. unfold strip, lstrip.
  apply (forallb_drop_while is_safe_char is_space) in H.
  destruct (rstrip_prefix (drop_while is_space s)) as [t Ht].
  rewrite Ht, forallb_app in H. apply andb_true_iff in H as [H _]. exact H.
Qed.

Lemma safe_collapse (s : str) :
  forall b, forallb is_safe_char s = true ->
            forallb is_safe_char (collapse_from b s) = true.
Proof.
  induction s as [|c s IH]; intros b H; simpl in *; [reflexivity|].
  apply andb_true_iff in H as [Hc H].
  destruct (is_space c).
  - destruct b; [auto|]. simpl. rewrite IH by assumption. reflexivity.
  - simpl. rewrite Hc, IH by assumption. reflexivity.
Qed.

Lemma safe_filter (s : str) : forallb is_safe_char (filter is_safe_char s) = true.
Proof.
  induction s as [|c s IH]; simpl; [reflexivity|].
  destruct (is_safe_char c) eqn:E; [simpl; rewrite E|]; exact IH.
Qed.

Lemma filter_safe_id (s : str) :
  forallb is_safe_char s = true -> filter is_safe_char s = s.
Proof.
  induction s as [|c s IH]; simpl; intros H; [reflexivity|].
  apply andb_true_iff in H as [-> H]. rewrite IH by assumption. reflexivity.
Qed.

Lemma rstrip_last (s : str) (y : ascii) :
  rstrip s = [] \/ is_space (last (rstrip s) y) = false.
Proof.
  induction s as [|c s IH] using rev_ind; [left; reflexivity|].
  rewrite rstrip_snoc. destruct (is_space c) eqn:E; [exact IH|].
  right. rewrite last_last. exact E.
Qed.

(** A stripped text has no whitespace at either end, and stripping it again
    changes nothing. *)
Lemma strip_ends (s : str) :
  (forall c t, strip s = c :: t -> is_space c = false) /\
  (forall t c, strip s = t ++ [c] -> is_space c = false) /\
  strip (strip s) = strip s.
Proof.
  assert (Hl : forall t c, strip s = t ++ [c] -> is_space c = false).
  { intros t c H. unfold strip in *.
    destruct (rstrip_last (lstrip s) c) as [Hn | Hn].
    - rewrite Hn in H. destruct t; discriminate.
    - rewrite H, last_last in Hn. exact Hn. }
  split; [apply strip_hd_not_space|]. split; [exact Hl|].
  destruct (strip s) as [|x t] eqn:E; [reflexivity|].
  apply (strip_solid (x :: t) x x t eq_refl).
  - apply (strip_hd_not_space s x t E).
  - destruct (exists_last (l := x :: t) ltac:(discriminate)) as (u & z & Hu).
    rewrite Hu, last_last. apply (Hl u z). rewrite <- Hu. reflexivity.
Qed.

Lemma tidy_no_run (s : str) :
  forall b a c d t,
    tidy_from b s = true -> s = a ++ c :: d :: t ->
    is_space c = true -> is_space d = false.
Proof.
  induction s as [|x s IH]; intros b a c d t H Hs Hc.
  - destruct a; discriminate.
  - destruct a as [|y a]; simpl in Hs; inversion Hs; subst.
    + simpl in H. rewrite Hc in H.
      apply andb_true_iff in H as [_ H].
      destruct (is_space d); [|reflexivity].
      simpl in H. discriminate.
    + simpl in H. destruct (is_space y).
      * apply andb_true_iff in H as [_ H]. apply (IH true a c d t H eq_refl Hc).
      * apply (IH false a c d t H eq_refl Hc).
Qed.

(** C10.  [_safe_filename] is idempotent; its result holds only letters
    A-Z and a-z, digits, spaces, underscores and hyphens, has no whitespace at
    either end, and has no two whitespace characters in a row. *)
Theorem C10_safe_filename_idempotent :
  forall (s : option str),
    let o := _safe_filename s in
    _safe_filename (Some o) = o /\
    (forall c, In c o -> is_safe_char c = true) /\
    (forall c t, o = c :: t -> is_space c = false) /\
    (forall t c, o = t ++ [c] -> is_space c = false) /\
    (forall a c d t, o = a ++ c :: d :: t -> is_space c = true ->
                     is_space d = false).
Proof.
  intros s o.
  assert (Ho : o = strip (collapse_from false
                            (filter is_safe_char (strip (or_empty s)))))
    by apply safe_filename_eq.
  set (x := collapse_from false (filter is_safe_char (strip (or_empty s)))) in Ho.
  assert (Hsafe : forallb is_safe_char o = true).
  { rewrite Ho. apply safe_strip. apply safe_collapse. apply safe_filter. }
  assert (Htidy : tidy_from false o = true).
  { rewrite Ho. apply tidy_strip. apply tidy_collapse. }
  destruct (strip_ends x) as (Hhd & Hlast & Hidem). rewrite <- Ho in *.
  split; [|split; [|split; [|split]]].
  - rewrite safe_filename_eq. simpl or_empty.
    rewrite Hidem, (filter_safe_id o Hsafe), (collapse_tidy o false Htidy).
    exact Hidem.
  - apply forallb_forall. exact Hsafe.
  - exact Hhd.
  - exact Hlast.
  - intros a c d t Hs Hc. apply (tidy_no_run o false a c d t Htidy Hs Hc).
Qed.

(** The stem of the specification's example. *)
Lemma safe_filename_example :
  _safe_filename (Some "GEO_Class_Lists_Fall 2025!!") = "GEO_Class_Lists_Fall 2025".
Proof. vm_compute. reflexivity. Qed.

(** * Further properties *)

(** ** The matcher *)

Lemma prev_of_app (pv : option ascii) (a b : str) :
  prev_of pv (a ++ b) = prev_of (prev_of pv a) b.
Proof.
  revert pv. induction a as [|c a IH]; intros pv; simpl; auto.
Qed.

(** Whatever the matcher hands to its continuation is a match of the
    pattern. *)
Lemma run_sound (r : regex) :
  forall (A : Type) (st : mstate) (k : mstate -> option A) (a : A),
    run r st k = Some a ->
    exists s1 s2 g,
      rest st = s1 ++ s2 /\ matches r (prev st) s1 s2 g /\
      k (MState (prev_of (prev st) s1) s2 (g ++ caps st)) = Some a.
Proof.
  induction r as [|p|r1 IH1 r2 IH2|r1 IH1 r2 IH2|p|r1 IH1|n r1 IH1|];
    intros A st k a H; cbn [run] in H.
  - exists [], (rest st), []. destruct st. simpl. repeat split; [constructor | exact H].
  - destruct (rest st) as [|c s'] eqn:E; [discriminate|].
    destruct (p c) eqn:Ep; [|discriminate].
    exists [c], s', []. repeat split; [constructor; exact Ep | exact H].
  - apply IH1 in H as (s1 & s2 & g1 & Hr & Hm1 & H).
    apply IH2 in H as (s1' & s2' & g2 & Hr' & Hm2 & H). cbn [rest prev caps] in *.
    subst s2. exists (s1 ++ s1'), s2', (g2 ++ g1).
    rewrite prev_of_app, <- !app_assoc. repeat split; try assumption.
    constructor; assumption.
  - destruct (run r1 st k) as [a'|] eqn:E.
    + inversion H; subst a'. apply IH1 in E as (s1 & s2 & g & Hr & Hm & Hk).
      exists s1, s2, g. repeat split; try assumption. apply M_AltL. exact Hm.
    + apply IH2 in H as (s1 & s2 & g & Hr & Hm & Hk).
      exists s1, s2, g. repeat split; try assumption. apply M_AltR. exact Hm.
  - apply star_run_inv in H as (ws & s2 & Hr & Hws & Hk).
    exists ws, s2, []. repeat split; try assumption. constructor. exact Hws.
  - destruct (run r1 st k) as [a'|] eqn:E.
    + inversion H; subst a'. apply IH1 in E as (s1 & s2 & g & Hr & Hm & Hk).
      exists s1, s2, g. repeat split; try assumption. apply M_OptSome. exact Hm.
    + exists [], (rest st), []. destruct st. simpl.
      repeat split; [apply M_OptNone | exact H].
  - apply IH1 in H as (s1 & s2 & g & Hr & Hm & Hk). cbn [rest prev caps] in Hk.
    rewrite Hr, consumed_app in Hk.
    exists s1, s2, ((n, s1) :: g). repeat split; try assumption.
    constructor. exact Hm.
  - destruct (at_boundary (prev st) (rest st)) eqn:E; [|discriminate].
    exists [], (rest st), []. destruct st. simpl in *.
    repeat split; [constructor; exact E | exact H].
Qed.

Lemma match_at_sound (r : regex) (pv : option ascii) (s : str) (m : Match) :
  match_at r pv s = Some m ->
  exists s1 s2 g, s = s1 ++ s2 /\ matches r pv s1 s2 g /\ m = MkMatch s1 g.
Proof.
  unfold match_at. intros H.
  apply run_sound in H as (s1 & s2 & g & Hr & Hm & Hk). cbn [rest prev caps] in *.
  exists s1, s2, g. repeat split; try assumption.
  inversion Hk. rewrite Hr, consumed_app, app_nil_r. reflexivity.
Qed.

(** ** Header lines *)

Ltac inv_matches :=
  repeat match goal with
         | H : matches (Cat _ _) _ _ _ _ |- _ => inversion H; subst; clear H
         | H : matches (Grp _ _) _ _ _ _ |- _ => inversion H; subst; clear H
         | H : matches (Cls _) _ _ _ _ |- _ => inversion H; subst; clear H
         | H : matches (Star _) _ _ _ _ |- _ => inversion H; subst; clear H
         | H : matches Eps _ _ _ _ |- _ => inversion H; subst; clear H
         | H : matches (Opt _) _ _ _ _ |- _ => inversion H; subst; clear H
         end.

Lemma app_tail_in (a0 a1 a2 a3 a4 a5 a6 a7 a8 a9 t : str) :
  (a0 ++ a1 ++ a2 ++ a3 ++ a4 ++ a5 ++ a6 ++ a7 ++ a8 ++ a9 ++ []) ++ t =
  a0 ++ a1 ++ a2 ++ a3 ++ a4 ++ a5 ++ a6 ++ a7 ++ a8 ++ a9 ++ t.
Proof. rewrite <- !app_assoc. reflexivity. Qed.

Ltac use_tests :=
  cbn [app forallb length andb];
  repeat match goal with
         | H : ?x = true |- context [?x] => rewrite H; cbn [andb]
         end.

(** A line that the header pattern matches is cut into the parts of a
    header, and the groups are the CRN, the subject, the course number, the
    section and the title. *)
Lemma header_match_inv (line : str) (m : Match) :
  re_match COURSE_RE line = Some m ->
  exists ws0 crn ws1 subj ws2 num ws3 sec ws4 title tail,
    header_parts line ws0 crn ws1 subj ws2 num ws3 sec ws4 title tail /\
    group 1 m = crn /\ group 2 m = subj /\ group 3 m = num /\
    group 4 m = [sec] /\ group 5 m = title.
Proof.
  unfold re_match. intros H.
  apply match_at_sound in H as (s1 & s2 & g & Hl & Hm & ->).
  unfold COURSE_RE, seq, Plus in Hm. cbn [fold_right rep] in Hm.
  inv_matches; rewrite app_tail_in;
    do 11 eexists; (split; [unfold header_parts; split; [reflexivity|]|]).
  all: cbn [group lookup m_caps app Nat.eqb].
  all: unfold is_crn, is_gap, is_course_number.
  all: repeat match goal with |- _ /\ _ => split end; try reflexivity;
    try discriminate; try (use_tests; reflexivity).
  all: match goal with
       | |- exists ds suffix, ?x :: ?l ++ ?t = _ /\ _ => exists (x :: l), t
       end.
  all: split; [reflexivity|]; split; [discriminate|];
    split; [use_tests; reflexivity|].
  - right. eexists. split; [reflexivity | assumption].
  - left. reflexivity.
Qed.

Lemma run_rep_cls (A : Type) (p : ascii -> bool) (n : nat) :
  forall (w s : str) (pv : option ascii) (g : list (nat * str))
         (k : mstate -> option A),
    length w = n -> forallb p w = true ->
    run (rep n (Cls p)) (MState pv (w ++ s) g) k = k (MState (prev_of pv w) s g).
Proof.
  induction n as [|n IH]; intros w s pv g k Hl Hw; destruct w as [|c w];
    try discriminate Hl.
  - reflexivity.
  - simpl in Hw. apply andb_true_iff in Hw as [Hc Hw].
    cbn [rep run rest caps app prev_of]. rewrite Hc.
    apply IH; [simpl in Hl; lia | exact Hw].
Qed.

Lemma run_star_longest (A : Type) (p : ascii -> bool) (w s : str)
      (pv : option ascii) (g : list (nat * str)) (k : mstate -> option A) (a : A) :
  forallb p w = true ->
  (forall c, hd_error s = Some c -> p c = false) ->
  k (MState (prev_of pv w) s g) = Some a ->
  run (Star p) (MState pv (w ++ s) g) k = Some a.
Proof.
  intros Hw Hs Hk. cbn [run rest prev caps].
  apply star_run_longest; assumption.
Qed.

Lemma run_plus_longest (A : Type) (p : ascii -> bool) (w s : str)
      (pv : option ascii) (g : list (nat * str)) (k : mstate -> option A) (a : A) :
  w <> [] -> forallb p w = true ->
  (forall c, hd_error s = Some c -> p c = false) ->
  k (MState (prev_of pv w) s g) = Some a ->
  run (Plus p) (MState pv (w ++ s) g) k = Some a.
Proof.
  intros Hne Hw Hs Hk. destruct w as [|c w]; [congruence|].
  simpl in Hw. apply andb_true_iff in Hw as [Hc Hw].
  unfold Plus. cbn [run rest prev caps app]. rewrite Hc.
  apply star_run_longest; assumption.
Qed.

Lemma space_not_word (c : ascii) : is_space c = true -> is_word c = false.
Proof. all_chars c. Qed.

Lemma space_not_digit (c : ascii) : is_space c = true -> is_digit c = false.
Proof. all_chars c. Qed.

Lemma space_not_upper (c : ascii) : is_space c = true -> is_upper_AZ c = false.
Proof. all_chars c. Qed.

Lemma upper_not_digit (c : ascii) : is_upper_AZ c = true -> is_digit c = false.
Proof. all_chars c. Qed.

Lemma gap_hd (p : ascii -> bool) (w s : str) :
  is_gap w -> (forall c, is_space c = true -> p c = false) ->
  forall c, hd_error (w ++ s) = Some c -> p c = false.
Proof.
  intros [Hne Hw] Hp c Hc. destruct w as [|x w]; [congruence|].
  simpl in Hc. inversion Hc; subst x. simpl in Hw.
  apply andb_true_iff in Hw as [Hx _]. auto.
Qed.

Lemma run_cat (A : Type) (r1 r2 : regex) (st : mstate) (k : mstate -> option A) :
  run (Cat r1 r2) st k = run r1 st (fun st1 => run r2 st1 k).
Proof. reflexivity. Qed.

Lemma run_grp (A : Type) (n : nat) (r : regex) (st : mstate)
      (k : mstate -> option A) :
  run (Grp n r) st k =
  run r st (fun st1 =>
              k (MState (prev st1) (rest st1)
                        ((n, consumed (rest st) (rest st1)) :: caps st1))).
Proof. reflexivity. Qed.

Lemma word_not_space (c : ascii) : is_word c = true -> is_space c = false.
Proof. all_chars c. Qed.

Lemma hd_app_cons (p : ascii -> bool) (w s : str) :
  w <> [] -> forallb p w = true ->
  exists c, hd_error (w ++ s) = Some c /\ p c = true.
Proof.
  intros Hne Hw. destruct w as [|x w]; [congruence|]. simpl in Hw.
  apply andb_true_iff in Hw as [Hx _]. exists x. auto.
Qed.

Lemma run_cls_ok (A : Type) (p : ascii -> bool) (c : ascii) (s : str)
      (pv : option ascii) (g : list (nat * str)) (k : mstate -> option A) :
  p c = true ->
  run (Cls p) (MState pv (c :: s) g) k = k (MState (Some c) s g).
Proof. intros H. cbn [run rest caps]. rewrite H. reflexivity. Qed.

Lemma run_cls_fail (A : Type) (p : ascii -> bool) (s : str)
      (pv : option ascii) (g : list (nat * str)) (k : mstate -> option A) :
  (forall c, hd_error s = Some c -> p c = false) ->
  run (Cls p) (MState pv s g) k = None.
Proof.
  intros H. cbn [run rest caps]. destruct s as [|c s]; [reflexivity|].
  rewrite (H c eq_refl). reflexivity.
Qed.

Lemma run_opt_skip (A : Type) (r : regex) (st : mstate) (k : mstate -> option A) :
  run r st k = None -> run (Opt r) st k = k st.
Proof. intros H. cbn [run]. rewrite H. reflexivity. Qed.

Lemma run_opt_take (A : Type) (r : regex) (st : mstate) (k : mstate -> option A)
      (a : A) :
  run r st k = Some a -> run (Opt r) st k = Some a.
Proof. intros H. cbn [run]. rewrite H. reflexivity. Qed.

(** The end of the header pattern, from the whitespace before the section. *)
Lemma header_tail_run (whole_line ws3 : str) (sec : ascii) (ws4 title tail : str)
      (pv : option ascii) (g : list (nat * str)) :
  is_gap ws3 -> is_digit sec = true -> is_gap ws4 ->
  forallb is_dot title = true -> greedy_title title tail ->
  run (Cat (Plus is_space)
           (Cat (Grp 4 (Cls is_digit))
                (Cat (Plus is_space) (Cat (Grp 5 (Star is_dot)) Eps))))
      (MState pv (ws3 ++ [sec] ++ ws4 ++ title ++ tail) g)
      (fun st => Some (MkMatch (consumed whole_line (rest st)) (caps st))) =
  Some (MkMatch (consumed whole_line tail) ((5, title) :: (4, [sec]) :: g)).
Proof.
  intros [G3n G3] Hsec [G4n G4] Ht [Hth Htl].
  rewrite run_cat. apply run_plus_longest; [exact G3n | exact G3 | |].
  { intros c Hc. simpl in Hc. inversion Hc; subst c.
    apply digit_not_space. exact Hsec. }
  rewrite run_cat, run_grp.
  change ([sec] ++ ws4 ++ title ++ tail) with (sec :: (ws4 ++ title ++ tail)).
  rewrite run_cls_ok by exact Hsec. cbn [rest prev caps].
  rewrite run_cat. apply run_plus_longest; [exact G4n | exact G4 | |].
  { exact Hth. }
  rewrite run_cat, run_grp.
  apply run_star_longest; [exact Ht | exact Htl |].
  cbn [run rest prev caps].
  rewrite consumed_app.
  rewrite consumed_cons, consumed_same by lia. reflexivity.
Qed.

(** A line cut into the parts of a header, the title cut as the greedy
    pattern cuts it, is matched with exactly these parts as groups. *)
Lemma header_match_parts (line ws0 crn ws1 subj ws2 num ws3 : str) (sec : ascii)
      (ws4 title tail : str) :
  header_parts line ws0 crn ws1 subj ws2 num ws3 sec ws4 title tail ->
  greedy_title title tail ->
  re_match COURSE_RE line =
  Some (MkMatch (ws0 ++ crn ++ ws1 ++ subj ++ ws2 ++ num ++ ws3 ++ [sec] ++
                 ws4 ++ title)
                [(5, title); (4, [sec]); (3, num); (2, subj); (1, crn)]).
Proof.
  intros (Hl & H0 & [Hcl Hcd] & G1 & [Hsne Hsw] & G2 & Hnum & G3 & Hsec & G4 & Ht)
         Hgreedy.
  assert (Hwhole : consumed line tail =
                   ws0 ++ crn ++ ws1 ++ subj ++ ws2 ++ num ++ ws3 ++ [sec] ++
                   ws4 ++ title).
  { rewrite Hl.
    replace (ws0 ++ crn ++ ws1 ++ subj ++ ws2 ++ num ++ ws3 ++ [sec] ++ ws4 ++
             title ++ tail)
      with ((ws0 ++ crn ++ ws1 ++ subj ++ ws2 ++ num ++ ws3 ++ [sec] ++ ws4 ++
             title) ++ tail)
      by (rewrite <- !app_assoc; reflexivity).
    apply consumed_app. }
  pose proof (header_tail_run line ws3 sec ws4 title tail) as Htail.
  rewrite <- Hwhole. clear Hwhole.
  unfold re_match, match_at, COURSE_RE, seq. cbn [fold_right].
  rewrite Hl at 1.
  assert (Hcrn : exists c, hd_error (crn ++ ws1 ++ subj ++ ws2 ++ num ++ ws3 ++
                                     [sec] ++ ws4 ++ title ++ tail) = Some c /\
                           is_digit c = true).
  { apply hd_app_cons; [|exact Hcd]. destruct crn; [discriminate | discriminate]. }
  rewrite run_cat. apply run_star_longest; [exact H0 | |].
  { intros c Hc. destruct Hcrn as (c' & Hc' & Hd). rewrite Hc in Hc'.
    inversion Hc'; subst c'. apply digit_not_space. exact Hd. }
  rewrite run_cat, run_grp, run_rep_cls by assumption.
  cbn [rest prev caps]. rewrite consumed_app.
  rewrite run_cat. destruct G1 as [G1n G1].
  apply run_plus_longest; [exact G1n | exact G1 | |].
  { intros c Hc. destruct (hd_app_cons is_word subj
                             (ws2 ++ num ++ ws3 ++ [sec] ++ ws4 ++ title ++ tail)
                             Hsne Hsw) as (c' & Hc' & Hw).
    rewrite Hc in Hc'. inversion Hc'; subst c'. apply word_not_space. exact Hw. }
  rewrite run_cat, run_grp.
  apply run_plus_longest; [exact Hsne | exact Hsw | |].
  { apply gap_hd; [exact G2 | apply space_not_word]. }
  cbn [rest prev caps]. rewrite consumed_app.
  destruct Hnum as (ds & suffix & -> & Hdn & Hds & Hsuf).
  rewrite run_cat. destruct G2 as [G2n G2].
  apply run_plus_longest; [exact G2n | exact G2 | |].
  { intros c Hc. rewrite <- app_assoc in Hc.
    destruct (hd_app_cons is_digit ds
                (suffix ++ ws3 ++ [sec] ++ ws4 ++ title ++ tail) Hdn Hds)
      as (c' & Hc' & Hd).
    rewrite Hc in Hc'. inversion Hc'; subst c'. apply digit_not_space. exact Hd. }
  rewrite run_cat, run_grp, run_cat.
  rewrite <- (app_assoc ds suffix).
  destruct Hsuf as [-> | (u & -> & Hu)].
  - apply run_plus_longest; [exact Hdn | exact Hds | |].
    { apply (gap_hd is_digit ws3 _ G3). apply space_not_digit. }
    change ([] ++ ws3 ++ [sec] ++ ws4 ++ title ++ tail)
      with (ws3 ++ [sec] ++ ws4 ++ title ++ tail).
    rewrite run_opt_skip
      by (apply run_cls_fail; apply (gap_hd is_upper_AZ ws3 _ G3);
          apply space_not_upper).
    cbn [rest prev caps]. rewrite app_nil_r.
    rewrite (consumed_app ds (ws3 ++ [sec] ++ ws4 ++ title ++ tail)).
    apply (Htail _ _ G3 Hsec G4 Ht Hgreedy).
  - apply run_plus_longest; [exact Hdn | exact Hds | |].
    { intros c Hc. simpl in Hc. inversion Hc; subst c.
      apply upper_not_digit. exact Hu. }
    change ([u] ++ ws3 ++ [sec] ++ ws4 ++ title ++ tail)
      with (u :: (ws3 ++ [sec] ++ ws4 ++ title ++ tail)).
    apply run_opt_take.
    rewrite run_cls_ok by exact Hu. cbn [rest prev caps].
    replace (consumed (ds ++ u :: ws3 ++ [sec] ++ ws4 ++ title ++ tail)
                      (ws3 ++ [sec] ++ ws4 ++ title ++ tail))
      with (ds ++ [u]).
    2:{ symmetry.
        replace (ds ++ u :: ws3 ++ [sec] ++ ws4 ++ title ++ tail)
          with ((ds ++ [u]) ++ ws3 ++ [sec] ++ ws4 ++ title ++ tail)
          by (rewrite <- app_assoc; reflexivity).
        apply consumed_app. }
    apply (Htail _ _ G3 Hsec G4 Ht Hgreedy).
Qed.

Lemma onHeader_some_inv (settings : Settings) (line : str) (c : ClassContext) :
  onHeader settings None line = Some c ->
  exists m,
    re_match COURSE_RE line = Some m /\
    c = MkContext (group 1 m) (group 2 m) (group 3 m) (group 4 m)
                  (strip (group 5 m)) /\
    allows (allowed_courses settings) (group 3 m).
Proof.
  unfold onHeader. destruct (re_match COURSE_RE line) as [m|]; [|discriminate].
  intros H. exists m. split; [reflexivity|].
  destruct (allowed_courses settings) as [a|]; simpl.
  - destruct (mem (group 3 m) a) eqn:E; simpl in H; [|discriminate].
    inversion H. auto.
  - inversion H. auto.
Qed.

Lemma onHeader_sound (settings : Settings) (cur : option ClassContext)
      (line : str) (c : ClassContext) :
  re_match COURSE_RE line <> None ->
  onHeader settings cur line = Some c ->
  sound_context settings c.
Proof.
  intros Hm H.
  rewrite (onHeader_header settings cur line Hm) in H.
  apply onHeader_some_inv in H as (m & Hre & -> & Hal).
  apply header_match_inv in Hre
    as (ws0 & crn & ws1 & subj & ws2 & num & ws3 & sec & ws4 & title & tail &
        (Hl & H0 & Hcrn & G1 & Hsubj & G2 & Hnum & G3 & Hsec & G4 & Ht) &
        E1 & E2 & E3 & E4 & E5).
  unfold sound_context.
  cbn [ctx_CRN ctx_Subject ctx_Course_Number ctx_Section ctx_Course_Name].
  rewrite E3 in Hal. rewrite E1, E2, E3, E4.
  split; [exact Hcrn|]. split; [exact Hsubj|]. split; [exact Hnum|].
  split; [exists sec; auto|]. split; [apply strip_ends | exact Hal].
Qed.

(** X1.  Whatever context a header line sets has a CRN of five digits, a
    non-empty subject of word characters, a course number made of digits and
    at most one letter A-Z after them, a section of one digit, a course name
    with no whitespace at either end, and a course number that the filter
    lets through. *)
Theorem header_sets_sound_context :
  forall (settings : Settings) (cur : option ClassContext) (line : str)
         (c : ClassContext),
    re_match COURSE_RE line <> None ->
    onHeader settings cur line = Some c ->
    sound_context settings c.
Proof.
  intros settings cur line c Hm H.
  exact (onHeader_sound settings cur line c Hm H).
Qed.

Lemma header_sets_sound_context_witness :
  sound_context DEFAULT_SETTINGS
                (MkContext "22222" "GEO" "280A" "3" "Field Methods").
Proof.
  apply (header_sets_sound_context DEFAULT_SETTINGS None field_header).
  - vm_compute. discriminate.
  - vm_compute. reflexivity.
Defined.

(** X2.  A line made of optional whitespace, five digits, a subject of word
    characters, a course number, a one-digit section and a title, with
    whitespace between them, the title starting at the first character after
    the last whitespace and running to the end of the line, is read as a
    header with exactly these fields, the title stripped; the filter then
    keeps the context or clears it. *)
Theorem header_parts_are_read :
  forall (settings : Settings) (cur : option ClassContext)
         (line ws0 crn ws1 subj ws2 num ws3 : str) (sec : ascii)
         (ws4 title tail : str),
    header_parts line ws0 crn ws1 subj ws2 num ws3 sec ws4 title tail ->
    greedy_title title tail ->
    (allows (allowed_courses settings) num ->
     onHeader settings cur line =
     Some (MkContext crn subj num [sec] (strip title))) /\
    ((exists a, allowed_courses settings = Some a /\ mem num a = false) ->
     onHeader settings cur line = None).
Proof.
  intros settings cur line ws0 crn ws1 subj ws2 num ws3 sec ws4 title tail Hp Hg.
  pose proof (header_match_parts _ _ _ _ _ _ _ _ _ _ _ _ Hp Hg) as Hm.
  split.
  - intros Ha. rewrite (onHeader_accepted settings cur line _ Hm Ha). reflexivity.
  - intros (a & Ha & Hmem). unfold onHeader. rewrite Hm, Ha.
    cbn [group lookup m_caps Nat.eqb]. rewrite Hmem. reflexivity.
Qed.

Lemma header_parts_are_read_witness :
  onHeader DEFAULT_SETTINGS None field_header =
  Some (MkContext "22222" "GEO" "280A" "3" "Field Methods").
Proof.
  change (Some (MkContext "22222" "GEO" "280A" "3" "Field Methods"))
    with (Some (MkContext "22222" "GEO" "280A" ["3"%char] (strip "Field Methods "))).
  refine (proj1 (header_parts_are_read DEFAULT_SETTINGS None field_header
                   "  " "22222" " " "GEO" " " "280A" " " "3"%char "   "
                   "Field Methods " "" _ _) _).
  - unfold header_parts, is_crn, is_gap, is_course_number.
    repeat split; try reflexivity; try discriminate.
    exists "280", "A". repeat split; try reflexivity; try discriminate.
    right. exists "A"%char. split; reflexivity.
  - split; intros c Hc; [|discriminate Hc].
    simpl in Hc. inversion Hc. reflexivity.
  - vm_compute. reflexivity.
Defined.

(** The contexts of a walk are [None] or sound. *)
Lemma ctx_from_sound (settings : Settings) (pages : list (option str))
      (c : ClassContext) :
  ctx_from settings None pages = Some c -> sound_context settings c.
Proof.
  intros H. apply ctx_from_origin in H as [H | (page & h & _ & _ & Ho)];
    [discriminate|].
  apply (onHeader_sound settings None h c); [|exact Ho].
  unfold onHeader in Ho. destruct (re_match COURSE_RE h); [discriminate|discriminate].
Qed.

(** ** The records of a walk *)

(** Each record that the row loop appends was made by the row step at some
    cursor position. *)
Lemma student_rows_steps (settings : Settings) (cur : option ClassContext)
      (lines : list str) (fuel : nat) :
  forall idx recs out,
    student_rows fuel settings cur lines idx recs = Ok out ->
    exists new,
      out = recs ++ new /\
      2 * length new <= length lines - idx + 1 /\
      forall r, In r new ->
        exists i, idx <= i < length lines /\
                  tryExtract settings lines i cur = Ok (Some r, i + 2).
Proof.
  induction fuel as [|fuel IH]; simpl; intros idx recs out H; [discriminate|].
  destruct (idx <? length lines) eqn:Hlt.
  - apply Nat.ltb_lt in Hlt.
    destruct (tryExtract settings lines idx cur) as [[[r|] idx']| |] eqn:E;
      simpl in H; try discriminate.
    + pose proof (tryExtract_tagged _ _ _ _ _ _ E) as [_ ->].
      apply IH in H as (new & -> & Hlen & Hn).
      exists (r :: new). split; [rewrite <- app_assoc; reflexivity|].
      split; [simpl; lia|].
      intros r' [<-|Hr].
      * exists idx. split; [lia | exact E].
      * destruct (Hn r' Hr) as (i & Hi & Hx). exists i. split; [lia | exact Hx].
    + pose proof (tryExtract_skip _ _ _ _ _ E) as ->.
      apply IH in H as (new & -> & Hlen & Hn).
      exists new. split; [reflexivity|]. split; [lia|].
      intros r' Hr. destruct (Hn r' Hr) as (i & Hi & Hx).
      exists i. split; [lia | exact Hx].
  - inversion H; subst. exists []. rewrite app_nil_r.
    split; [reflexivity|]. split; [simpl; lia|]. intros r [].
Qed.

(** What the row step puts in a record. *)
Lemma tryExtract_record (settings : Settings) (lines : list str) (idx : nat)
      (cur : option ClassContext) (r : StudentRecord) (idx' : nat) :
  tryExtract settings lines idx cur = Ok (Some r, idx') ->
  exists m c,
    re_search GNUM_RE (nth idx lines []) = Some m /\ cur = Some c /\
    G_Number r = group 1 m /\
    (Last_Name r, First_Name r) = names (nth idx lines []) (group 1 m) /\
    email_of settings lines idx = Ok (PCC_email_address r) /\
    Non_PCC_email r = [] /\
    rec_Class r = class_label c /\ rec_CRN r = ctx_CRN c.
Proof.
  unfold tryExtract.
  destruct (re_search GNUM_RE (nth idx lines [])) as [m|]; [|discriminate].
  destruct cur as [c|]; [|discriminate].
  destruct (names _ _) as [l f] eqn:En.
  destruct (email_of settings lines idx) as [e| |]; simpl; try discriminate.
  intros H; inversion H; subst; clear H. exists m, c. simpl. auto 10.
Qed.

(** Each record of a walk was made by the row step on a line of a page,
    under the context in force for that page. *)
Lemma walk_record_origin (settings : Settings) (pages : list (option str))
      (recs : list StudentRecord) (r : StudentRecord) :
  walk settings pages = Ok recs -> In r recs ->
  exists k page c i,
    nth_error pages k = Some page /\
    ctx_from settings None (firstn (S k) pages) = Some c /\
    i < length (page_lines page) /\
    tryExtract settings (page_lines page) i (Some c) = Ok (Some r, i + 2).
Proof.
  unfold walk. intros H Hr.
  destruct (walk_pages settings (MkWalk None []) pages) as [st| |] eqn:E;
    simpl in H; try discriminate.
  inversion H; subst; clear H.
  apply walk_pages_inv in E as (_ & new & Hrec & Hin).
  cbn [records current_class app] in Hrec, Hin.
  rewrite Hrec in Hr.
  destruct (Hin r Hr) as (k & page & c & rows & Hk & Hctx & Hrows & Hi & _).
  apply student_rows_steps in Hrows as (new' & Hn & _ & Hsteps).
  simpl in Hn. subst new'.
  destruct (Hsteps r Hi) as (i & Hlt & Hx).
  exists k, page, c, i. repeat split; try assumption. lia.
Qed.

(** X3.  Every record of a walk has a CRN of five digits and a class of the
    form subject, space, course number, where the subject is a non-empty run
    of word characters (so it holds no space) and the course number is made
    of digits and at most one letter A-Z, and is one that the filter lets
    through. *)
Theorem walk_records_class_and_crn :
  forall (settings : Settings) (pages : list (option str))
         (recs : list StudentRecord),
    walk settings pages = Ok recs ->
    forall r, In r recs ->
      is_crn (rec_CRN r) /\
      exists subj num,
        rec_Class r = subj ++ " " ++ num /\
        subj <> [] /\ forallb is_word subj = true /\
        is_course_number num /\ allows (allowed_courses settings) num.
Proof.
  intros settings pages recs H r Hr.
  destruct (walk_record_origin settings pages recs r H Hr)
    as (k & page & c & i & _ & Hctx & _ & Hx).
  apply ctx_from_sound in Hctx as (Hcrn & [Hs1 Hs2] & Hnum & _ & _ & Hal).
  apply tryExtract_record in Hx as (m & c' & _ & Hc & _ & _ & _ & _ & Hcl & Hcr).
  inversion Hc; subst c'. rewrite Hcl, Hcr. split; [exact Hcrn|].
  exists (ctx_Subject c), (ctx_Course_Number c). auto.
Qed.

Lemma walk_records_class_and_crn_witness :
  is_crn (rec_CRN C2_record1) /\
  exists subj num, rec_Class C2_record1 = subj ++ " " ++ num /\
                   is_course_number num.
Proof.
  assert (H : walk DEFAULT_SETTINGS [C2_page1] = Ok [C2_record1])
    by (vm_compute; reflexivity).
  destruct (walk_records_class_and_crn DEFAULT_SETTINGS [C2_page1] [C2_record1] H
              C2_record1 (or_introl eq_refl))
    as (Hcrn & subj & num & Hcl & _ & _ & Hnum & _).
  split; [exact Hcrn|]. exists subj, num. auto.
Defined.

(** X4.  Every record of a walk has a G-number made of G and eight digits,
    and this G-number stands on a line of one of the pages, with no G-number
    starting before it on that line. *)
Theorem walk_records_g_number :
  forall (settings : Settings) (pages : list (option str))
         (recs : list StudentRecord),
    walk settings pages = Ok recs ->
    forall r, In r recs ->
      is_gnum (G_Number r) /\
      exists page pre post,
        In page pages /\ In (pre ++ G_Number r ++ post) (page_lines page) /\
        forall a g b, pre ++ G_Number r ++ post = a ++ g ++ b -> is_gnum g ->
                      length pre <= length a.
Proof.
  intros settings pages recs H r Hr.
  destruct (walk_record_origin settings pages recs r H Hr)
    as (k & page & c & i & Hk & _ & Hi & Hx).
  apply tryExtract_record in Hx as (m & c' & Hm & _ & Hg & _).
  unfold re_search in Hm.
  apply search_from_some in Hm as (a & b & Hab & Hma & Hleft).
  apply gnum_match_at in Hma as (post & Hb & Hgn & _).
  rewrite <- Hg in *. split; [exact Hgn|].
  exists page, a, post. split; [apply (nth_error_In _ _ Hk)|]. split.
  - rewrite <- Hb, <- Hab. apply nth_In. exact Hi.
  - intros a' g b' Heq Hgg.
    destruct (Nat.le_gt_cases (length a) (length a')) as [Hle|Hgt]; [exact Hle|].
    exfalso.
    pose proof (gnum_match_here (prev_of None a') g b' Hgg) as Hh.
    rewrite (Hleft a' (g ++ b')) in Hh; [discriminate | | exact Hgt].
    rewrite Hab, Hb. exact Heq.
Qed.

Lemma walk_records_g_number_witness : is_gnum (G_Number C2_record1).
Proof.
  assert (H : walk DEFAULT_SETTINGS [C2_page1] = Ok [C2_record1])
    by (vm_compute; reflexivity).
  apply (walk_records_g_number DEFAULT_SETTINGS [C2_page1] [C2_record1] H
           C2_record1 (or_introl eq_refl)).
Defined.

Lemma split_pieces_no_sep (x : ascii) (s : str) :
  forall p, In p (split [x] s) -> ~ In x p.
Proof.
  induction s as [|c s IH]; intros p Hp.
  - destruct Hp as [<-|[]]. intros [].
  - rewrite split_char_cons in Hp. destruct (Ascii.eqb x c) eqn:E.
    + destruct Hp as [<-|Hp]; [intros [] | apply IH; exact Hp].
    + pose proof (split_from_nonempty [x] s 0) as Hne. unfold split in *.
      destruct (split_from [x] s 0) as [|q qs]; [contradiction|].
      simpl in Hp. destruct Hp as [<-|Hp].
      * intros [Hc|Hin].
        { subst c. rewrite ascii_eqb_refl in E. discriminate. }
        { apply (IH q); [left; reflexivity | exact Hin]. }
      * apply IH. right. exact Hp.
Qed.

Lemma In_drop_while (p : ascii -> bool) (c : ascii) (s : str) :
  In c (drop_while p s) -> In c s.
Proof.
  induction s as [|x s IH]; simpl; [tauto|].
  destruct (p x); [auto | tauto].
Qed.

Lemma In_strip (c : ascii) (s : str) : In c (strip s) -> In c s.
Proof.
  unfold strip, lstrip. intros H. apply (In_drop_while is_space).
  destruct (rstrip_prefix (drop_while is_space s)) as [t Ht].
  rewrite Ht. apply in_or_app. left. exact H.
Qed.

Lemma index_In (A : Type) (l : list A) (i : nat) (x : A) :
  index l i = Ok x -> In x l.
Proof.
  unfold index. destruct (nth_error l i) eqn:E; [|discriminate].
  intros H; inversion H; subst. apply (nth_error_In _ _ E).
Qed.

(** The names are stripped pieces of a text split on commas. *)
Lemma names_shape (line gnum l f : str) :
  names line gnum = (l, f) ->
  strip l = l /\ strip f = f /\ ~ In ","%char l /\ ~ In ","%char f.
Proof.
  unfold names, split_name.
  destruct (index (split gnum line) 0) as [name_part| |]; simpl;
    try (intros H; inversion H; subst; repeat split; auto; intros []).
  destruct (index (split_ws1 name_part) 1) as [tail| |]; simpl;
    try (intros H; inversion H; subst; repeat split; auto; intros []).
  destruct (index (split "," tail) 0) as [a| |] eqn:Ea; simpl;
    try (intros H; inversion H; subst; repeat split; auto; intros []).
  destruct (index (split "," tail) 1) as [b| |] eqn:Eb; simpl;
    try (intros H; inversion H; subst; repeat split; auto; intros []).
  intros H; inversion H; subst; clear H.
  apply index_In in Ea, Eb.
  split; [apply strip_ends|]. split; [apply strip_ends|]. split.
  - intros Hin. apply In_strip in Hin.
    exact (split_pieces_no_sep ","%char tail a Ea Hin).
  - intros Hin. apply In_strip in Hin.
    exact (split_pieces_no_sep ","%char tail b Eb Hin).
Qed.

(** X5.  In every record of a walk the last name and the first name have no
    whitespace at either end and hold no comma. *)
Theorem walk_records_names :
  forall (settings : Settings) (pages : list (option str))
         (recs : list StudentRecord),
    walk settings pages = Ok recs ->
    forall r, In r recs ->
      strip (Last_Name r) = Last_Name r /\
      strip (First_Name r) = First_Name r /\
      ~ In ","%char (Last_Name r) /\ ~ In ","%char (First_Name r).
Proof.
  intros settings pages recs H r Hr.
  destruct (walk_record_origin settings pages recs r H Hr)
    as (k & page & c & i & _ & _ & _ & Hx).
  apply tryExtract_record in Hx as (m & c' & _ & _ & _ & Hn & _).
  apply (names_shape (nth i (page_lines page) []) (group 1 m)).
  symmetry. exact Hn.
Qed.

Lemma walk_records_names_witness :
  strip (Last_Name C2_record1) = Last_Name C2_record1 /\
  ~ In ","%char (First_Name C2_record1).
Proof.
  assert (H : walk DEFAULT_SETTINGS [C2_page1] = Ok [C2_record1])
    by (vm_compute; reflexivity).
  destruct (walk_records_names DEFAULT_SETTINGS [C2_page1] [C2_record1] H
              C2_record1 (or_introl eq_refl)) as (Hl & _ & _ & Hf).
  split; assumption.
Defined.

Lemma take_while_all (p : ascii -> bool) (s : str) :
  forallb p (take_while p s) = true.
Proof.
  induction s as [|c s IH]; simpl; [reflexivity|].
  destruct (p c) eqn:E; [simpl; rewrite E; exact IH | reflexivity].
Qed.

(** The first token of a text is the run of non-whitespace characters that
    follows its leading whitespace. *)
Lemma split_ws_first (s : str) :
  (split_ws s = [] /\ lstrip s = []) \/
  (exists ts, split_ws s = take_while not_space (lstrip s) :: ts /\
              take_while not_space (lstrip s) <> []).
Proof.
  unfold lstrip. induction s as [|c s IH]; [left; split; reflexivity|].
  rewrite split_ws_cons. simpl drop_while. destruct (is_space c) eqn:E; [exact IH|].
  right. simpl take_while. unfold not_space at 1 3. rewrite E. simpl negb. cbn iota.
  destruct s as [|d s].
  - exists []. split; [reflexivity | discriminate].
  - destruct (is_space d) eqn:Ed.
    + exists (split_ws (d :: s)). simpl take_while. unfold not_space at 1.
      rewrite Ed. simpl. split; [reflexivity | discriminate].
    + destruct IH as [[_ Hl] | (ts & Hs & _)].
      * simpl in Hl. rewrite Ed in Hl. discriminate.
      * simpl drop_while in Hs. rewrite Ed in Hs. rewrite Hs.
        exists ts. split; [reflexivity | discriminate].
Qed.

(** The e-mail step returns the empty string or the first token of the next
    line. *)
Lemma email_of_token (settings : Settings) (lines : list str) (idx : nat) (e : str) :
  email_of settings lines idx = Ok e ->
  e = [] \/
  (idx + 1 < length lines /\
   contains (email_domain settings) (strip (nth (idx + 1) lines [])) = true /\
   e = take_while not_space (lstrip (nth (idx + 1) lines [])) /\ e <> []).
Proof.
  unfold email_of. destruct (idx + 1 <? length lines) eqn:Hlt;
    [|intros H; inversion H; auto].
  apply Nat.ltb_lt in Hlt.
  destruct (contains _ _) eqn:Hc; [|intros H; inversion H; auto].
  rewrite split_ws_strip.
  destruct (split_ws_first (nth (idx + 1) lines [])) as [[Hs _] | (ts & Hs & Hne)];
    rewrite Hs; simpl; intros H; inversion H; subst.
  right. auto.
Qed.

(** X6.  In every record of a walk the e-mail is empty, or it is a
    non-empty text without whitespace that starts, after leading whitespace,
    a line of one of the pages, a line that contains the e-mail domain once
    stripped; the second e-mail field is always empty. *)
Theorem walk_records_email :
  forall (settings : Settings) (pages : list (option str))
         (recs : list StudentRecord),
    walk settings pages = Ok recs ->
    forall r, In r recs ->
      Non_PCC_email r = [] /\
      (PCC_email_address r = [] \/
       (PCC_email_address r <> [] /\
        forallb not_space (PCC_email_address r) = true /\
        exists page line rest,
          In page pages /\ In line (page_lines page) /\
          lstrip line = PCC_email_address r ++ rest /\
          contains (email_domain settings) (strip line) = true)).
Proof.
  intros settings pages recs H r Hr.
  destruct (walk_record_origin settings pages recs r H Hr)
    as (k & page & c & i & Hk & _ & _ & Hx).
  apply tryExtract_record in Hx as (m & c' & _ & _ & _ & _ & He & Hn & _).
  split; [exact Hn|].
  apply email_of_token in He as [He | (Hlt & Hc & He & Hne)]; [left; exact He|].
  right. split; [exact Hne|]. split; [rewrite He; apply take_while_all|].
  exists page, (nth (i + 1) (page_lines page) []),
         (drop_while not_space (lstrip (nth (i + 1) (page_lines page) []))).
  split; [apply (nth_error_In _ _ Hk)|]. split; [apply nth_In; exact Hlt|].
  split; [|exact Hc].
  rewrite He. symmetry. apply take_drop_while.
Qed.

Lemma walk_records_email_witness :
  PCC_email_address C2_record1 = [] \/
  forallb not_space (PCC_email_address C2_record1) = true.
Proof.
  assert (H : walk DEFAULT_SETTINGS [C2_page1] = Ok [C2_record1])
    by (vm_compute; reflexivity).
  destruct (walk_records_email DEFAULT_SETTINGS [C2_page1] [C2_record1] H
              C2_record1 (or_introl eq_refl)) as (_ & [He | (_ & Hs & _)]).
  - left. exact He.
  - right. exact Hs.
Defined.

(** ** The walk as a whole *)

Lemma walk_pages_app (settings : Settings) (a b : list (option str)) :
  forall st,
    walk_pages settings st (a ++ b) =
    (st' <- walk_pages settings st a ;; walk_pages settings st' b).
Proof.
  induction a as [|page a IH]; intros st; simpl; [reflexivity|].
  destruct (walk_page settings st page) as [st1| |]; simpl; [apply IH | |];
    reflexivity.
Qed.

Lemma walk_pages_count (settings : Settings) (pages : list (option str)) :
  forall st st',
    walk_pages settings st pages = Ok st' ->
    exists new,
      records st' = records st ++ new /\
      2 * length new <= line_count pages + length pages.
Proof.
  induction pages as [|page pages IH]; simpl; intros st st' H.
  - inversion H; subst. exists []. rewrite app_nil_r. split; [reflexivity|].
    simpl. lia.
  - destruct (walk_page settings st page) as [st1| |] eqn:E; simpl in H;
      try discriminate.
    apply walk_page_inv in E as (_ & new1 & Hr1 & Hrows & _).
    apply student_rows_steps in Hrows as (new1' & Hn & Hlen & _).
    cbn [app] in Hn. subst new1'.
    apply IH in H as (new2 & Hr2 & Hlen2).
    exists (new1 ++ new2). split.
    + rewrite Hr2, Hr1, app_assoc. reflexivity.
    + rewrite length_app. unfold line_count in *. simpl in *. lia.
Qed.

(** X7.  A walk makes at most one record for every two lines, rounded up
    page by page: twice the number of records is at most the number of lines
    plus the number of pages.  The line after a student line is passed over
    even when it is a student line itself. *)
Theorem walk_records_bound :
  forall (settings : Settings) (pages : list (option str))
         (recs : list StudentRecord),
    walk settings pages = Ok recs ->
    2 * length recs <= line_count pages + length pages.
Proof.
  unfold walk. intros settings pages recs H.
  destruct (walk_pages settings (MkWalk None []) pages) as [st| |] eqn:E;
    simpl in H; try discriminate.
  inversion H; subst; clear H.
  apply walk_pages_count in E as (new & Hr & Hlen).
  cbn [records app] in Hr. rewrite Hr. exact Hlen.
Qed.

(** Two student lines in a row: one record. *)
Lemma walk_records_bound_witness :
  walk DEFAULT_SETTINGS [crowded_page] = Ok [crowded_record] /\
  2 * length [crowded_record] <= line_count [crowded_page] + 1.
Proof.
  assert (H : walk DEFAULT_SETTINGS [crowded_page] = Ok [crowded_record])
    by (vm_compute; reflexivity).
  split; [exact H|].
  apply (walk_records_bound DEFAULT_SETTINGS [crowded_page] [crowded_record] H).
Defined.





(** X9.  A document none of whose lines is a header that passes the filter
    gives no record, whatever its student lines and whatever the settings. *)
Theorem walk_without_accepted_header :
  forall (settings : Settings) (pages : list (option str)),
    (forall page line, In page pages -> In line (page_lines page) ->
                       onHeader settings None line = None) ->
    walk settings pages = Ok [].
Proof.
  intros settings pages H. unfold walk.
  rewrite walk_pages_cleared by exact H. reflexivity.
Qed.

(** Student lines and no header line. *)
Lemma walk_without_accepted_header_witness :
  walk DEFAULT_SETTINGS [Some ("1 Doe, Jane G12345678" ++ NL ++ "jdoe@pcc.edu")]
  = Ok [].
Proof.
  apply walk_without_accepted_header.
  intros page line [<-|[]] Hl.
  change (page_lines (Some ("1 Doe, Jane G12345678" ++ NL ++ "jdoe@pcc.edu")))
    with ["1 Doe, Jane G12345678"; ("jdoe@pcc.edu" : str)] in Hl.
  destruct Hl as [<-|[<-|[]]]; vm_compute; reflexivity.
Defined.

(** X10.  The records of the first pages of a document are the first
    records of the whole document: walking [a ++ b] gives the records of [a]
    followed by those that the pages of [b] add. *)
Theorem walk_first_pages :
  forall (settings : Settings) (a b : list (option str))
         (recs : list StudentRecord),
    walk settings (a ++ b) = Ok recs ->
    exists ra rb, walk settings a = Ok ra /\ recs = ra ++ rb.
Proof.
  unfold walk. intros settings a b recs H.
  rewrite walk_pages_app in H.
  destruct (walk_pages settings (MkWalk None []) a) as [st1| |] eqn:Ea;
    simpl in H; try discriminate.
  destruct (walk_pages settings st1 b) as [st2| |] eqn:Eb; simpl in H;
    try discriminate.
  inversion H; subst; clear H.
  apply walk_pages_count in Eb as (new & Hr & _).
  exists (records st1), new. split; [reflexivity | exact Hr].
Qed.

Lemma walk_first_pages_witness :
  exists ra rb,
    walk DEFAULT_SETTINGS [C2_page1] = Ok ra /\
    [C2_record1; C2_record2] = ra ++ rb.
Proof.
  apply (walk_first_pages DEFAULT_SETTINGS [C2_page1] [C2_page2 "Withdrawn 09/30"]).
  vm_compute. reflexivity.
Defined.

(** ** The term label *)



Lemma strip_cons_space (c : ascii) (s : str) :
  is_space c = true -> strip (c :: s) = strip s.
Proof.
  intros H. unfold strip, lstrip. simpl. rewrite H. reflexivity.
Qed.

(** X12.  [_term_from_code] raises [IndexError] on the empty string and
    [ValueError] when the last character is not a digit; when the last
    character is a digit other than 1, 2, 3 and 4 it returns the first four
    characters, stripped, and not the empty string: four digits followed by
    one character and a digit that is not from 1 to 4 give the four
    digits. *)
Theorem term_from_code_edges :
  _term_from_code [] = Raised IndexError /\
  (forall body c,
      is_digit c = false -> _term_from_code (body ++ [c]) = Raised ValueError) /\
  (forall body c,
      is_digit c = true -> in_range 49 52 c = false ->
      _term_from_code (body ++ [c]) = Ok (strip (firstn 4 (body ++ [c])))) /\
  (forall y d c,
      length y = 4 -> forallb is_digit y = true ->
      is_digit c = true -> in_range 49 52 c = false ->
      _term_from_code (y ++ [d; c]) = Ok y).
Proof.
  assert (Hlast : forall body c, last_char (body ++ [c]) = Ok c).
  { intros body c. unfold last_char. rewrite rev_app_distr. reflexivity. }
  assert (H3 : forall body c,
             is_digit c = true -> in_range 49 52 c = false ->
             _term_from_code (body ++ [c]) = Ok (strip (firstn 4 (body ++ [c])))).
  { intros body c Hd Hq. unfold _term_from_code. rewrite Hlast. cbn [bind].
    unfold int_of_char. rewrite Hd. cbn [bind].
    assert (Hs : season_map (code c - 48) = []).
    { clear -Hd Hq. destruct c as [[] [] [] [] [] [] [] []];
        vm_compute in Hd; try discriminate Hd;
        vm_compute in Hq; try discriminate Hq; reflexivity. }
    rewrite Hs. change ([] ++ " " ++ firstn 4 (body ++ [c]))
      with (" "%char :: firstn 4 (body ++ [c])).
    rewrite strip_cons_space by reflexivity. reflexivity. }
  split; [reflexivity|]. split; [|split; [exact H3|]].
  - intros body c Hd. unfold _term_from_code. rewrite Hlast. cbn [bind].
    unfold int_of_char. rewrite Hd. reflexivity.
  - intros y d c Hl Hy Hd Hq.
    replace (y ++ [d; c]) with ((y ++ [d]) ++ [c])
      by (rewrite <- app_assoc; reflexivity).
    rewrite (H3 (y ++ [d]) c Hd Hq). f_equal.
    rewrite <- app_assoc, firstn_app, Hl, Nat.sub_diag. simpl firstn at 2.
    rewrite app_nil_r, <- Hl, firstn_all.
    do 4 (destruct y as [|? y]; [discriminate Hl|]).
    destruct y; [|discriminate Hl].
    simpl in Hy. repeat (apply andb_true_iff in Hy as [? Hy]).
    apply (strip_solid _ a a1 [a0; a1; a2] eq_refl).
    + apply digit_not_space. assumption.
    + simpl. apply digit_not_space. assumption.
Qed.

(** ** The output name *)

Lemma safe_space (c : ascii) :
  is_safe_char c = true -> is_space c = true -> c = " "%char.
Proof. all_chars c. Qed.


Lemma tidy_of_clean (s : str) :
  forall b,
    (forall c, In c s -> is_safe_char c = true) ->
    (forall a c d t, s = a ++ c :: d :: t -> is_space c = true -> is_space d = false) ->
    (b = true -> forall c t, s = c :: t -> is_space c = false) ->
    tidy_from b s = true.
Proof.
  induction s as [|x s IH]; intros b Hsafe Hrun Hhd; [reflexivity|].
  cbn [tidy_from]. destruct (is_space x) eqn:E.
  - assert (Hb : b = false).
    { destruct b; [|reflexivity]. rewrite (Hhd eq_refl x s eq_refl) in E.
      discriminate. }
    rewrite Hb. rewrite (safe_space x (Hsafe x (or_introl eq_refl)) E).
    change (Ascii.eqb " " " ") with true. cbn [negb andb].
    apply IH.
    + intros c Hc. apply Hsafe. right. exact Hc.
    + intros a c d t Hs. apply (Hrun (x :: a) c d t). rewrite Hs. reflexivity.
    + intros _ c t Hs. apply (Hrun [] x c t); [rewrite Hs; reflexivity | exact E].
  - apply IH.
    + intros c Hc. apply Hsafe. right. exact Hc.
    + intros a c d t Hs. apply (Hrun (x :: a) c d t). rewrite Hs. reflexivity.
    + intros Hf. discriminate Hf.
Qed.

Lemma ends_strip (s : str) :
  (forall c t, s = c :: t -> is_space c = false) ->
  (forall t c, s = t ++ [c] -> is_space c = false) ->
  strip s = s.
Proof.
  intros Hh Hl. destruct s as [|x t]; [reflexivity|].
  apply (strip_solid (x :: t) x x t eq_refl (Hh x t eq_refl)).
  destruct (exists_last (l := x :: t) ltac:(discriminate)) as (u & z & Hu).
  rewrite Hu, last_last. apply (Hl u z Hu).
Qed.

(** A name of safe characters, tidy and with no whitespace at its ends is
    left as it is. *)
Lemma safe_filename_keeps (s : str) :
  forallb is_safe_char s = true -> tidy_from false s = true ->
  (forall c t, s = c :: t -> is_space c = false) ->
  (forall t c, s = t ++ [c] -> is_space c = false) ->
  _safe_filename (Some s) = s.
Proof.
  intros Hsafe Htidy Hh Hl. rewrite safe_filename_eq. cbn [or_empty].
  rewrite (ends_strip s Hh Hl), (filter_safe_id s Hsafe),
    (collapse_tidy s false Htidy).
  apply (ends_strip s Hh Hl).
Qed.

Lemma clean_keeps (s : str) : clean_name s -> _safe_filename (Some s) = s.
Proof.
  intros (Hsafe & Hh & Hl & Hrun). apply safe_filename_keeps; try assumption.
  - apply forallb_forall. exact Hsafe.
  - apply tidy_of_clean; try assumption. intros Hf. discriminate Hf.
Qed.

Lemma safe_filename_clean (s : option str) : clean_name (_safe_filename s).
Proof.
  rewrite safe_filename_eq.
  set (x := collapse_from false (filter is_safe_char (strip (or_empty s)))).
  assert (Hsafe : forallb is_safe_char (strip x) = true).
  { apply safe_strip. apply safe_collapse. apply safe_filter. }
  assert (Htidy : tidy_from false (strip x) = true).
  { apply tidy_strip. apply tidy_collapse. }
  destruct (strip_ends x) as (Hh & Hl & _).
  split; [|split; [exact Hh|split; [exact Hl|]]].
  - intros c Hc. apply (proj1 (forallb_forall _ _) Hsafe c Hc).
  - intros a c d t Hs Hc. apply (tidy_no_run (strip x) false a c d t Htidy Hs Hc).
Qed.

(** X13.  The names that [_safe_filename] returns unchanged are exactly the
    clean ones: made of letters, digits, spaces, underscores and hyphens
    only, with no whitespace at either end and no two whitespace characters
    in a row. *)
Theorem safe_filename_fixed_points :
  forall s : str, _safe_filename (Some s) = s <-> clean_name s.
Proof.
  intros s. split.
  - intros H. rewrite <- H. apply safe_filename_clean.
  - apply clean_keeps.
Qed.

Lemma drop_while_keeps (p : ascii -> bool) (c : ascii) (s : str) :
  In c s -> p c = false -> In c (drop_while p s).
Proof.
  induction s as [|x s IH]; intros H Hc; [destruct H|].
  cbn [drop_while]. destruct (p x) eqn:E.
  - destruct H as [-> | H]; [congruence | auto].
  - exact H.
Qed.

Lemma strip_keeps (c : ascii) (s : str) :
  In c s -> is_space c = false -> In c (strip s).
Proof.
  intros H Hc. unfold strip, rstrip, lstrip.
  apply in_rev. rewrite rev_involutive.
  apply drop_while_keeps; [|exact Hc]. apply -> in_rev.
  apply drop_while_keeps; assumption.
Qed.

Lemma strip_nil_iff (s : str) :
  strip s = [] <-> (forall c, In c s -> is_space c = true).
Proof.
  split.
  - intros H c Hc. destruct (is_space c) eqn:E; [reflexivity|].
    pose proof (strip_keeps c s Hc E) as Hin. rewrite H in Hin. destruct Hin.
  - intros H. destruct (strip s) as [|x t] eqn:E; [reflexivity|].
    pose proof (strip_hd_not_space s x t E) as Hx.
    rewrite (H x) in Hx; [discriminate|].
    apply In_strip. rewrite E. left. reflexivity.
Qed.

Lemma collapse_keeps (c : ascii) (s : str) :
  forall b, is_space c = false -> (In c (collapse_from b s) <-> In c s).
Proof.
  induction s as [|x s IH]; intros b Hc; [reflexivity|].
  cbn [collapse_from]. destruct (is_space x) eqn:E.
  - assert (Hx : x <> c) by (intros ->; congruence).
    destruct b.
    + rewrite (IH true Hc). split; [right; assumption|].
      intros [H | H]; [contradiction | exact H].
    + split.
      * intros [H | H]; [subst c; discriminate Hc|].
        right. apply (IH true Hc). exact H.
      * intros [H | H]; [contradiction|]. right. apply (IH true Hc). exact H.
  - split; (intros [H | H]; [left; exact H | right; apply (IH false Hc); exact H]).
Qed.

(** X14.  [_safe_filename] returns the empty string exactly when its
    argument holds no letter, digit, underscore or hyphen. *)
Theorem safe_filename_empty :
  forall s : option str,
    _safe_filename s = [] <->
    (forall c, In c (or_empty s) -> is_safe_char c = true -> c = " "%char).
Proof.
  intros s. rewrite safe_filename_eq, strip_nil_iff. split.
  - intros H c Hc Hs. destruct (is_space c) eqn:E; [apply safe_space; assumption|].
    rewrite (H c) in E; [discriminate E|].
    apply (proj2 (collapse_keeps c _ false E)). apply filter_In.
    split; [|exact Hs].
    apply strip_keeps; assumption.
  - intros H c Hc. destruct (is_space c) eqn:E; [reflexivity|].
    apply (proj1 (collapse_keeps c _ false E)) in Hc.
    apply filter_In in Hc as [Hc Hs].
    apply In_strip in Hc. rewrite (H c Hc Hs) in E. discriminate E.
Qed.





(** ** The groups *)

Lemma grouped_snoc (recs : list StudentRecord) (r : StudentRecord) :
  grouped (recs ++ [r]) = dict_append (group_key r) r (grouped recs).
Proof. unfold grouped. rewrite fold_left_app. reflexivity. Qed.

Lemma dict_append_keys (k : str) (r : StudentRecord)
      (d : list (str * list StudentRecord)) :
  map fst (dict_append k r d) =
  if mem k (map fst d) then map fst d else map fst d ++ [k].
Proof.
  induction d as [|[k0 r0] d IH]; [reflexivity|].
  cbn [dict_append map fst]. unfold mem in *. cbn [existsb].
  destruct (str_eqb k k0); [reflexivity|].
  cbn [orb map fst]. rewrite IH.
  destruct (existsb (str_eqb k) (map fst d)); reflexivity.
Qed.

Lemma dict_append_In (k : str) (r : StudentRecord)
      (d : list (str * list StudentRecord)) (k' : str)
      (rs' : list StudentRecord) :
  NoDup (map fst d) -> In (k', rs') (dict_append k r d) ->
  (k' <> k /\ In (k', rs') d) \/
  (k' = k /\ ((exists rs, In (k, rs) d /\ rs' = rs ++ [r]) \/
              (~ In k (map fst d) /\ rs' = [r]))).
Proof.
  induction d as [|[k0 r0] d IH]; intros Hnd Hin.
  - destruct Hin as [Hin | []]. inversion Hin; subst.
    right. split; [reflexivity|]. right. split; [intros []|reflexivity].
  - cbn [dict_append] in Hin. cbn [map fst] in Hnd. inversion Hnd; subst.
    destruct (str_eqb k k0) eqn:E.
    + apply str_eqb_eq in E. subst k0. destruct Hin as [Hin | Hin].
      * inversion Hin; subst. right. split; [reflexivity|]. left.
        exists r0. split; [left; reflexivity | reflexivity].
      * left. split; [|right; exact Hin]. intros ->.
        apply H1. apply (in_map fst _ _ Hin).
    + assert (Hne : k <> k0).
      { intros ->. rewrite (proj2 (str_eqb_eq k0 k0) eq_refl) in E. discriminate. }
      destruct Hin as [Hin | Hin].
      * inversion Hin; subst. left. split; [congruence | left; reflexivity].
      * destruct (IH H2 Hin) as [[Hk Hd] | [Hk [(rs & Hd & Hr) | [Hn Hr]]]].
        -- left. split; [exact Hk | right; exact Hd].
        -- right. split; [exact Hk|]. left. exists rs.
           split; [right; exact Hd | exact Hr].
        -- right. split; [exact Hk|]. right. split; [|exact Hr].
           cbn [map fst]. intros [Hf | Hf]; [congruence | contradiction].
Qed.

Lemma with_key_snoc (k : str) (recs : list StudentRecord) (r : StudentRecord) :
  with_key k (recs ++ [r]) =
  if str_eqb (group_key r) k then with_key k recs ++ [r] else with_key k recs.
Proof.
  unfold with_key. rewrite filter_app. cbn [filter].
  destruct (str_eqb (group_key r) k); [reflexivity | apply app_nil_r].
Qed.

Lemma with_key_nil (k : str) (recs : list StudentRecord) :
  (forall r, In r recs -> group_key r <> k) -> with_key k recs = [].
Proof.
  induction recs as [|x recs IH]; intros H; [reflexivity|].
  unfold with_key in *. cbn [filter].
  destruct (str_eqb (group_key x) k) eqn:E.
  - apply str_eqb_eq in E. destruct (H x (or_introl eq_refl) E).
  - apply IH. intros r Hr. apply H. right. exact Hr.
Qed.

Lemma str_eqb_neq (a b : str) : a <> b -> str_eqb a b = false.
Proof.
  intros H. destruct (str_eqb a b) eqn:E; [|reflexivity].
  apply str_eqb_eq in E. contradiction.
Qed.

(** The dictionary after any number of records: its keys are distinct, every
    record's key is among them, and each value is the list of the records
    with its key. *)
Lemma grouped_inv (recs : list StudentRecord) :
  NoDup (map fst (grouped recs)) /\
  (forall r, In r recs -> In (group_key r) (map fst (grouped recs))) /\
  (forall k rs, In (k, rs) (grouped recs) -> rs = with_key k recs /\ rs <> []).
Proof.
  induction recs as [|r recs (Hnd & Hcov & Hgrp)] using rev_ind.
  - split; [constructor|]. split; [intros r []|intros k rs []].
  - rewrite grouped_snoc.
    assert (Hkeys := dict_append_keys (group_key r) r (grouped recs)).
    split; [|split].
    + rewrite Hkeys. destruct (mem (group_key r) (map fst (grouped recs))) eqn:E;
        [exact Hnd|].
      apply NoDup_rev in Hnd.
      rewrite <- (rev_involutive (map fst (grouped recs) ++ [group_key r])).
      apply NoDup_rev. rewrite rev_app_distr.
      cbn [rev app]. constructor; [|exact Hnd].
      intros Hf. apply in_rev in Hf. apply mem_In in Hf. congruence.
    + intros x Hx. rewrite Hkeys. apply in_app_or in Hx as [Hx | [<- | []]].
      * specialize (Hcov x Hx).
        destruct (mem (group_key r) (map fst (grouped recs)));
          [exact Hcov | apply in_or_app; left; exact Hcov].
      * destruct (mem (group_key r) (map fst (grouped recs))) eqn:E.
        -- apply mem_In. exact E.
        -- apply in_or_app. right. left. reflexivity.
    + intros k rs Hin. rewrite with_key_snoc.
      apply (dict_append_In _ _ _ _ _ Hnd) in Hin
        as [[Hk Hd] | [-> [(rs0 & Hd & ->) | [Hn ->]]]].
      * rewrite (str_eqb_neq (group_key r) k) by congruence.
        apply (Hgrp k rs Hd).
      * rewrite (proj2 (str_eqb_eq _ _) eq_refl).
        destruct (Hgrp _ _ Hd) as [<- _].
        split; [reflexivity | destruct rs0; discriminate].
      * rewrite (proj2 (str_eqb_eq _ _) eq_refl).
        rewrite with_key_nil; [split; [reflexivity|discriminate]|].
        intros x Hx Hf. apply Hn. rewrite <- Hf. apply (Hcov x Hx).
Qed.

Lemma first_keys_ext (recs : list StudentRecord) :
  forall s1 s2, (forall x, mem x s1 = mem x s2) ->
                first_keys s1 recs = first_keys s2 recs.
Proof.
  induction recs as [|r recs IH]; intros s1 s2 H; [reflexivity|].
  cbn [first_keys]. rewrite <- (H (group_key r)).
  destruct (mem (group_key r) s1).
  - apply IH. exact H.
  - f_equal. apply IH. intros x. unfold mem in *. cbn [existsb].
    rewrite (H x). reflexivity.
Qed.

Lemma keys_fold (recs : list StudentRecord) :
  forall d,
    map fst (fold_left (fun d rec => dict_append (group_key rec) rec d) recs d) =
    map fst d ++ first_keys (map fst d) recs.
Proof.
  induction recs as [|r recs IH]; intros d.
  - cbn [fold_left first_keys]. rewrite app_nil_r. reflexivity.
  - cbn [fold_left first_keys]. rewrite IH, dict_append_keys.
    destruct (mem (group_key r) (map fst d)) eqn:E; [reflexivity|].
    rewrite <- app_assoc. cbn [app]. do 2 f_equal.
    apply first_keys_ext. intros x. unfold mem.
    rewrite existsb_app. cbn [existsb]. rewrite orb_false_r. apply orb_comm.
Qed.

(** X16.  The keys of the groups are the keys [Class_CRN] of the records,
    each once, in the order in which they first occur among the records. *)
Theorem grouped_keys :
  forall recs : list StudentRecord,
    map fst (grouped recs) = first_keys [] recs /\
    NoDup (map fst (grouped recs)) /\
    (forall k, In k (map fst (grouped recs)) <->
               exists r, In r recs /\ group_key r = k).
Proof.
  intros recs. destruct (grouped_inv recs) as (Hnd & Hcov & Hgrp).
  split; [apply (keys_fold recs [])|]. split; [exact Hnd|].
  intros k. split.
  - intros H. apply in_map_iff in H as ([k0 rs] & <- & Hin).
    destruct (Hgrp k0 rs Hin) as [Hrs Hne].
    destruct rs as [|r rs]; [contradiction|].
    assert (Hr : In r (with_key k0 recs)) by (rewrite <- Hrs; left; reflexivity).
    apply filter_In in Hr as [Hr Hk]. apply str_eqb_eq in Hk.
    exists r. auto.
  - intros (r & Hr & <-). apply (Hcov r Hr).
Qed.

(** X17.  Each group is not empty and holds the records with its key, all of
    them and in the order of the records. *)
Theorem grouped_groups :
  forall (recs : list StudentRecord) (k : str) (rs : list StudentRecord),
    In (k, rs) (grouped recs) ->
    rs = with_key k recs /\ rs <> [].
Proof.
  intros recs k rs H. apply (proj2 (proj2 (grouped_inv recs)) k rs H).
Qed.

Lemma grouped_groups_witness :
  [C2_record1; C2_record1] =
  with_key "GEO 170_12345" [C2_record1; C2_record2; C2_record1] /\
  [C2_record1; C2_record1] <> [].
Proof.
  apply (grouped_groups [C2_record1; C2_record2; C2_record1]).
  vm_compute. left. reflexivity.
Defined.

Lemma walk_record_crn (settings : Settings) (pages : list (option str))
      (recs : list StudentRecord) (r : StudentRecord) :
  walk settings pages = Ok recs -> In r recs -> is_crn (rec_CRN r).
Proof.
  intros H Hr.
  destruct (walk_record_origin settings pages recs r H Hr)
    as (k & page & c & i & _ & Hctx & _ & Hx).
  apply ctx_from_sound in Hctx as (Hcrn & _).
  apply tryExtract_record in Hx as (m & c' & _ & Hc & _ & _ & _ & _ & _ & Hcr).
  inversion Hc; subst c'. rewrite Hcr. exact Hcrn.
Qed.

Lemma app_same_length (a1 b1 a2 b2 : str) :
  length b1 = length b2 -> a1 ++ b1 = a2 ++ b2 -> a1 = a2 /\ b1 = b2.
Proof.
  revert a2. induction a1 as [|x a1 IH]; intros a2 Hl H.
  - destruct a2 as [|y a2]; [auto|].
    apply (f_equal (@length ascii)) in H. cbn [app length] in H.
    rewrite length_app in H. lia.
  - destruct a2 as [|y a2].
    + apply (f_equal (@length ascii)) in H. cbn [app length] in H.
      rewrite length_app in H. lia.
    + cbn [app] in H. inversion H; subst.
      destruct (IH a2 Hl H2) as [-> ->]. auto.
Qed.

Lemma group_key_inj (r1 r2 : StudentRecord) :
  is_crn (rec_CRN r1) -> is_crn (rec_CRN r2) ->
  group_key r1 = group_key r2 ->
  rec_Class r1 = rec_Class r2 /\ rec_CRN r1 = rec_CRN r2.
Proof.
  intros [L1 _] [L2 _] H. unfold group_key in H.
  apply app_same_length in H as [Hc Hk].
  - split; [exact Hc|]. inversion Hk. reflexivity.
  - cbn [app length]. rewrite L1, L2. reflexivity.
Qed.

(** X18.  Over the records of a walk, a group holds exactly the records of
    one class and one CRN: its key is this class, an underscore and this CRN,
    and a record is in the group if and only if it is one of the records and
    has this class and this CRN. *)
Theorem walk_groups_by_class_and_crn :
  forall (settings : Settings) (pages : list (option str))
         (recs : list StudentRecord) (k : str) (rs : list StudentRecord),
    walk settings pages = Ok recs ->
    In (k, rs) (grouped recs) ->
    exists cls crn,
      k = cls ++ "_" ++ crn /\
      forall r, In r rs <-> (In r recs /\ rec_Class r = cls /\ rec_CRN r = crn).
Proof.
  intros settings pages recs k rs Hw Hin.
  destruct (proj2 (proj2 (grouped_inv recs)) k rs Hin) as [Hrs Hne].
  destruct rs as [|r0 rs0] eqn:Ers; [contradiction|]. rewrite <- Ers in *.
  assert (H0 : In r0 rs) by (rewrite Ers; left; reflexivity).
  rewrite Hrs in H0. apply filter_In in H0 as [H0 Hk0].
  apply str_eqb_eq in Hk0.
  exists (rec_Class r0), (rec_CRN r0). split; [symmetry; exact Hk0|].
  intros r. rewrite Hrs. unfold with_key. rewrite filter_In, str_eqb_eq.
  split.
  - intros [Hr Hk]. split; [exact Hr|].
    apply group_key_inj; [apply (walk_record_crn settings pages recs r Hw Hr)
                         |apply (walk_record_crn settings pages recs r0 Hw H0)
                         |congruence].
  - intros (Hr & Hc & Hn). split; [exact Hr|].
    rewrite <- Hk0. unfold group_key. rewrite Hc, Hn. reflexivity.
Qed.

Lemma walk_groups_by_class_and_crn_witness :
  exists cls crn,
    "GEO 170_12345" = cls ++ "_" ++ crn /\
    forall r, In r [C2_record1] <->
              (In r [C2_record1] /\ rec_Class r = cls /\ rec_CRN r = crn).
Proof.
  apply (walk_groups_by_class_and_crn DEFAULT_SETTINGS [C2_page1] [C2_record1]).
  - vm_compute. reflexivity.
  - vm_compute. left. reflexivity.
Defined.

(** ** Pages that hold nothing *)

Lemma student_rows_no_gnum (settings : Settings) (cur : option ClassContext)
      (lines : list str) :
  (forall l, In l lines -> re_search GNUM_RE l = None) ->
  forall fuel idx recs,
    length lines - idx < fuel ->
    student_rows fuel settings cur lines idx recs = Ok recs.
Proof.
  intros Hg. induction fuel as [|fuel IH]; intros idx recs Hf; [lia|].
  cbn [student_rows]. destruct (idx <? length lines) eqn:Hlt; [|reflexivity].
  apply Nat.ltb_lt in Hlt.
  rewrite tryExtract_no_gnum by (apply Hg; apply nth_In; exact Hlt).
  cbn [bind]. apply IH. lia.
Qed.

Lemma walk_page_nothing (settings : Settings) (st : WalkState)
      (page : option str) :
  (forall line, In line (page_lines page) ->
                re_match COURSE_RE line = None /\ re_search GNUM_RE line = None) ->
  walk_page settings st page = Ok st.
Proof.
  intros H. unfold walk_page. fold (page_lines page).
  rewrite header_pass_no_header by (intros l Hl; apply (H l Hl)).
  rewrite student_rows_no_gnum; [destruct st; reflexivity | | lia].
  intros l Hl. apply (H l Hl).
Qed.

(** X19.  A page with no header line and no G-number, such as a page with
    no text at all, changes nothing: the document with this page taken out
    gives the same result. *)
Theorem walk_skips_page_without_matches :
  forall (settings : Settings) (a : list (option str)) (page : option str)
         (b : list (option str)),
    (forall line, In line (page_lines page) ->
                  re_match COURSE_RE line = None /\
                  re_search GNUM_RE line = None) ->
    walk settings (a ++ page :: b) = walk settings (a ++ b).
Proof.
  intros settings a page b H. unfold walk. rewrite !walk_pages_app.
  destruct (walk_pages settings (MkWalk None []) a) as [st| |];
    cbn [bind]; try reflexivity.
  cbn [walk_pages]. rewrite (walk_page_nothing settings st page H).
  reflexivity.
Qed.

Lemma walk_skips_page_without_matches_witness :
  walk DEFAULT_SETTINGS ([C2_page1] ++ None :: [C2_page2 "Withdrawn 09/30"]) =
  walk DEFAULT_SETTINGS ([C2_page1] ++ [C2_page2 "Withdrawn 09/30"]).
Proof.
  apply (walk_skips_page_without_matches DEFAULT_SETTINGS [C2_page1] None
           [C2_page2 "Withdrawn 09/30"]).
  intros line Hl. vm_compute in Hl. destruct Hl as [<- | []].
  split; vm_compute; reflexivity.
Defined.
